(** * Language Mirror API: a shallow embedding of [main.py]

    The development follows the source file top to bottom: the sliding
    window [RateLimiter], the persona catalog [SUPPORTED_LANGUAGES], the
    four service adapters ([transcribe_audio], [detect_language_mismatch]
    with [analyze_with_gemini], [translate_text], [synthesize_speech]), the
    rate-limit middleware and the [/converse] endpoint with its event
    generator.

    Conventions.
    - A Python [str] is its UTF-8 byte string; [in], [split], [lower],
      [upper], [strip] and [len] are written out on that representation.
    - [time.time()] is a rational number of seconds.  The float subtraction
      of two timestamps less than a window apart is exact, so nothing is
      lost on the paths studied here.
    - A dict whose order matters (the catalog) is an association list; the
      limiter's [defaultdict(list)] is a [gmap].
    - Everything outside the process (speech recognition, language
      detection, the generative models, translation, voice synthesis) and
      the library decoders [json.loads], [html.unescape] and
      [base64.b64encode] are fields of one environment record [Env]; the
      adapters are the source's code around those calls.
    - [try]/[except] is the sum type [exc]; a generator is the list of the
      events it yields, in order. *)

From Stdlib Require Import QArith Qround Lqa.
From stdpp Require Import gmap strings list.
From Stdlib Require Import Ascii.

Close Scope Q_scope.

(** ** Python strings *)

Module PyStr.

Definition byte_str (bs : list nat) : string :=
  foldr (fun b s => String (ascii_of_nat b) s) EmptyString bs.

(** The double quote, which a literal cannot hold. *)
Definition dquote : string := byte_str [34].

(** [bool(s)]: the empty string is false. *)
Definition truthy (s : string) : bool :=
  match s with EmptyString => false | String _ _ => true end.

Fixpoint startswith (p s : string) : bool :=
  match p, s with
  | EmptyString, _ => true
  | String a p', String b s' => Ascii.eqb a b && startswith p' s'
  | String _ _, EmptyString => false
  end.

Fixpoint drop_chars (n : nat) (s : string) : string :=
  match n, s with
  | S n', String _ s' => drop_chars n' s'
  | _, _ => s
  end.

(** [s.partition(sep)] when [sep] occurs: the text before the first
    occurrence and the text after it. *)
Fixpoint find (sep s : string) : option (string * string) :=
  if startswith sep s then Some (EmptyString, drop_chars (String.length sep) s)
  else match s with
       | EmptyString => None
       | String c s' =>
           match find sep s' with
           | Some (a, b) => Some (String c a, b)
           | None => None
           end
       end.

(** [sub in s] *)
Definition contains (sub s : string) : bool :=
  match find sub s with Some _ => true | None => false end.

Fixpoint split_fuel (fuel : nat) (sep s : string) : list string :=
  match fuel with
  | O => [s]
  | S fuel' =>
      match find sep s with
      | None => [s]
      | Some (a, b) => a :: split_fuel fuel' sep b
      end
  end.

(** [s.split(sep)] for a non-empty [sep]: every cut removes at least one
    byte, so [length s] rounds are enough. *)
Definition split (sep s : string) : list string :=
  split_fuel (String.length s) sep s.

Definition lower_ascii (c : ascii) : ascii :=
  let n := nat_of_ascii c in
  if (65 <=? n)%nat && (n <=? 90)%nat then ascii_of_nat (n + 32) else c.

Definition upper_ascii (c : ascii) : ascii :=
  let n := nat_of_ascii c in
  if (97 <=? n)%nat && (n <=? 122)%nat then ascii_of_nat (n - 32) else c.

Fixpoint map_chars (f : ascii -> ascii) (s : string) : string :=
  match s with
  | EmptyString => EmptyString
  | String c s' => String (f c) (map_chars f s')
  end.

(** [s.lower()] and [s.upper()] on the ASCII letters. *)
Definition lower : string -> string := map_chars lower_ascii.
Definition upper : string -> string := map_chars upper_ascii.

(** [len(s)]: code points, that is the bytes that are not UTF-8
    continuation bytes. *)
Fixpoint len (s : string) : nat :=
  match s with
  | EmptyString => 0
  | String c s' =>
      let n := nat_of_ascii c in
      (if (128 <=? n)%nat && (n <? 192)%nat then 0 else 1) + len s'
  end.

(** The code points for which [str.isspace] holds, in UTF-8. *)
Definition whitespace : list string :=
  map byte_str
    [ [9]; [10]; [11]; [12]; [13]; [28]; [29]; [30]; [31]; [32];
      [194; 133]; [194; 160]; [225; 154; 128];
      [226; 128; 128]; [226; 128; 129]; [226; 128; 130]; [226; 128; 131];
      [226; 128; 132]; [226; 128; 133]; [226; 128; 134]; [226; 128; 135];
      [226; 128; 136]; [226; 128; 137]; [226; 128; 138];
      [226; 128; 168]; [226; 128; 169]; [226; 128; 175];
      [226; 129; 159]; [227; 128; 128] ].

Fixpoint rev_str (acc s : string) : string :=
  match s with
  | EmptyString => acc
  | String c s' => rev_str (String c acc) s'
  end.

Definition reverse (s : string) : string := rev_str EmptyString s.

(** Drops one leading member of [ws], if there is one. *)
Fixpoint drop_one (ws : list string) (s : string) : option string :=
  match ws with
  | [] => None
  | w :: ws' =>
      if startswith w s then Some (drop_chars (String.length w) s)
      else drop_one ws' s
  end.

Fixpoint lstrip_fuel (fuel : nat) (ws : list string) (s : string) : string :=
  match fuel with
  | O => s
  | S fuel' =>
      match drop_one ws s with
      | Some s' => lstrip_fuel fuel' ws s'
      | None => s
      end
  end.

Definition lstrip_with (ws : list string) (s : string) : string :=
  lstrip_fuel (String.length s) ws s.

(** [s.strip()] *)
Definition strip (s : string) : string :=
  let s1 := lstrip_with whitespace s in
  reverse (lstrip_with (map reverse whitespace) (reverse s1)).

End PyStr.

(** ** Exceptions, dicts and decoded JSON *)

(** The exception classes that some [except] clause of the source names;
    every other class is [Exception]. *)
Inductive exn_class : Type :=
  | InvalidArgument
  | ResourceExhausted
  | JSONDecodeError
  | TimeoutException
  | KeyError
  | IndexError
  | TypeError
  | AttributeError
  | Exception.

(** A raised exception: its class and [str(e)]. *)
Record exn := Exn { cls : exn_class; msg : string }.

(** The outcome of a call that may raise. *)
Inductive exc (A : Type) : Type :=
  | Ok (a : A)
  | Raise (e : exn).
Arguments Ok {A} a.
Arguments Raise {A} e.

Definition exc_bind {A B} (m : exc A) (k : A -> exc B) : exc B :=
  match m with
  | Ok a => k a
  | Raise e => Raise e
  end.

Notation "'try' x <- m ; k" := (exc_bind m (fun x => k))
  (at level 10, x name, m at level 100, k at level 200).

(** [l[i]] on a list. *)
Definition list_index {A} (l : list A) (i : nat) : exc A :=
  match l !! i with
  | Some a => Ok a
  | None => Raise (Exn IndexError "list index out of range")
  end.

(** An insertion-ordered dict with string keys. *)
Module PyDict.

Fixpoint lookup {V} (k : string) (d : list (string * V)) : option V :=
  match d with
  | [] => None
  | (k', v) :: d' => if String.eqb k k' then Some v else lookup k d'
  end.

(** [d[k]] *)
Definition subscript {V} (k : string) (d : list (string * V)) : exc V :=
  match lookup k d with
  | Some v => Ok v
  | None => Raise (Exn KeyError ("'" +:+ k +:+ "'"))
  end.

(** [d.get(k, dflt)] *)
Definition get {V} (k : string) (dflt : V) (d : list (string * V)) : V :=
  match lookup k d with Some v => v | None => dflt end.

Definition keys {V} (d : list (string * V)) : list string := map fst d.
Definition values {V} (d : list (string * V)) : list V := map snd d.

End PyDict.

#[local] Set Warnings "-register-all".

(** What [json.loads] produces.  A number is an [int] or a finite
    [float]. *)
Inductive json : Type :=
  | JNull
  | JBool (b : bool)
  | JInt (n : Z)
  | JFloat (q : Q)
  | JStr (s : string)
  | JArr (items : list json)
  | JObj (fields : list (string * json)).

Module Json.

(** [bool(v)] *)
Definition truthy (v : json) : bool :=
  match v with
  | JNull => false
  | JBool b => b
  | JInt n => negb (n =? 0)%Z
  | JFloat q => negb (Qeq_bool q 0)
  | JStr s => PyStr.truthy s
  | JArr items => match items with [] => false | _ :: _ => true end
  | JObj fields => match fields with [] => false | _ :: _ => true end
  end.

(** [type(v).__name__] *)
Definition type_name (v : json) : string :=
  match v with
  | JNull => "NoneType"
  | JBool _ => "bool"
  | JInt _ => "int"
  | JFloat _ => "float"
  | JStr _ => "str"
  | JArr _ => "list"
  | JObj _ => "dict"
  end.

(** [v.get(k, dflt)]: only a dict has the method. *)
Definition get (k : string) (dflt : json) (v : json) : exc json :=
  match v with
  | JObj fields => Ok (PyDict.get k dflt fields)
  | _ => Raise (Exn AttributeError
                  ("'" +:+ type_name v +:+ "' object has no attribute 'get'"))
  end.

End Json.

(** ** Configuration and the rate limiter *)

Definition RATE_LIMIT_REQUESTS : Z := 20.
Definition RATE_LIMIT_WINDOW : Q := 60.

Module RateLimiter.

Record t := mk {
  max_requests : Z;
  window : Q;
  requests : gmap string (list Q)
}.

(** [__init__] *)
Definition init (max_requests : Z) (window_seconds : Q) : t :=
  mk max_requests window_seconds ∅.

(** [int(x)]: truncation towards zero. *)
Definition py_int (x : Q) : Z :=
  if Qle_bool 0 x then Qfloor x else Qceiling x.

(** [min(l)]; [None] is the [ValueError] on an empty list. *)
Fixpoint py_min (l : list Q) : option Q :=
  match l with
  | [] => None
  | x :: l' =>
      match py_min l' with
      | None => Some x
      | Some m => Some (if Qlt_le_dec m x then m else x)
      end
  end.

#[global] Instance Qlt_decision (x y : Q) : Decision (x < y)%Q :=
  match Qlt_le_dec x y with
  | left H => left H
  | right H => right (Qle_not_lt _ _ H)
  end.

(** The timestamps that survive the cleaning at time [now]. *)
Definition fresh (self : t) (now : Q) (stamps : list Q) : list Q :=
  filter (fun req_time => (now - req_time < window self)%Q) stamps.

(** [self.requests[client_ip]] on the [defaultdict(list)]. *)
Definition stamps_of (self : t) (client_ip : string) : list Q :=
  default [] (requests self !! client_ip).

(** [is_allowed] at clock reading [now]: the limiter afterwards and the
    returned pair.  The cleaned list is stored in both branches; an
    admitted request appends [now] to it.  [None] stands for the
    [ValueError] of [min] on an empty list, which needs
    [max_requests <= 0]. *)
Definition is_allowed (self : t) (now : Q) (client_ip : string)
  : option (t * (bool * option Z)) :=
  let kept := fresh self now (stamps_of self client_ip) in
  let self1 := mk (max_requests self) (window self)
                  (<[client_ip := kept]> (requests self)) in
  if (Z.of_nat (length kept) >=? max_requests self)%Z then
    match py_min kept with
    | Some oldest =>
        let retry_after := (py_int (window self - (now - oldest)) + 1)%Z in
        Some (self1, (false, Some retry_after))
    | None => None
    end
  else
    Some (mk (max_requests self) (window self)
             (<[client_ip := kept ++ [now]]> (requests self)),
          (true, None)).

End RateLimiter.

Definition rate_limiter : RateLimiter.t :=
  RateLimiter.init RATE_LIMIT_REQUESTS RATE_LIMIT_WINDOW.

(** ** Language configurations *)

Module Dialect.
Record t := mk {
  voice_id : string;
  name : string;
  region : string;
  personality : string;
  greeting : string;
  speech_quirks : string
}.
End Dialect.

Module Lang.
Record t := mk {
  code : string;
  name : string;
  flag : string;
  translate_code : string;
  dialects : list (string * Dialect.t)
}.
End Lang.

(** The tuscan tutor of Italian. *)
Definition sofia : Dialect.t :=
  {| Dialect.voice_id := "pNInz6obpgDQGcFmaJgB";
     Dialect.name := "Sofia";
     Dialect.region := "Florence, Tuscany";
     Dialect.personality :=
       "Sofia is a 32-year-old art historian - cultured but direct. She appreciates effort but won't sugarcoat mistakes. She'll tell you 'That's not quite right' before explaining why. She has high standards because she knows you can meet them.";
     Dialect.greeting :=
       "Ciao! Sono Sofia. Pronto a fare un po' di pratica seria?";
     Dialect.speech_quirks :=
       "Uses 'Dunque...', 'Allora...', references Florentine culture, speaks precisely" |}.

(** The roman tutor of Italian. *)
Definition marco : Dialect.t :=
  {| Dialect.voice_id := "ErXwobaYiN019PkySvjV";
     Dialect.name := "Marco";
     Dialect.region := "Rome";
     Dialect.personality :=
       "Marco is a 28-year-old who works at his family's trattoria. He's brutally honest in a friendly way - will laugh at your mistakes but help you fix them. Uses Roman slang and doesn't take things too seriously. If you mess up, expect 'Dai, che hai detto?' (Come on, what did you say?)";
     Dialect.greeting :=
       "Ao! Ciao! So' Marco. Vediamo che sai fare, dai!";
     Dialect.speech_quirks :=
       "Uses 'Ao!', 'Daje!', 'Che te devo di'?', drops endings, very direct" |}.

(** The neapolitan tutor of Italian. *)
Definition giuseppe : Dialect.t :=
  {| Dialect.voice_id := "VR6AewLTigWG4xSOukaG";
     Dialect.name := "Giuseppe";
     Dialect.region := "Naples";
     Dialect.personality :=
       "Giuseppe is a 45-year-old musician - warm but honest. He'll encourage you but also say 'Mamma mia, no no no' when you mess up badly. He's expressive and dramatic about both praise AND criticism. Expects you to try hard.";
     Dialect.greeting :=
       "Uè! Benvenuto! Famme sentì che sai fa'!";
     Dialect.speech_quirks :=
       "Very expressive, uses 'Uè!', 'Mamma mia!', dramatic reactions, mixes Neapolitan words" |}.

Definition italian : Lang.t :=
  {| Lang.code := "it-IT";
     Lang.name := "Italian";
     Lang.flag := "🇮🇹";
     Lang.translate_code := "it";
     Lang.dialects :=
       [ ("tuscan", sofia);
         ("roman", marco);
         ("neapolitan", giuseppe) ] |}.

(** The castilian tutor of Spanish. *)
Definition carmen : Dialect.t :=
  {| Dialect.voice_id := "pNInz6obpgDQGcFmaJgB";
     Dialect.name := "Carmen";
     Dialect.region := "Madrid, Spain";
     Dialect.personality :=
       "Carmen is a 35-year-old journalist - sharp, witty, and doesn't waste words. She'll point out mistakes immediately but explains them well. Has little patience for lazy attempts but respects genuine effort. Will say 'Bueno, eso no está bien' without hesitation.";
     Dialect.greeting :=
       "Hola. Soy Carmen. Vamos a ver qué tal lo haces.";
     Dialect.speech_quirks :=
       "Uses 'Vale', 'Bueno', 'A ver...', Castilian lisp, matter-of-fact tone" |}.

(** The mexican tutor of Spanish. *)
Definition carlos : Dialect.t :=
  {| Dialect.voice_id := "ErXwobaYiN019PkySvjV";
     Dialect.name := "Carlos";
     Dialect.region := "Mexico City";
     Dialect.personality :=
       "Carlos is a 30-year-old designer - friendly but straightforward. He'll say '¿Qué onda con eso?' when confused by your Spanish. Encouraging but honest - won't pretend something was good if it wasn't. Uses humor to soften criticism.";
     Dialect.greeting :=
       "¡Qué onda! Soy Carlos. A ver, échale ganas.";
     Dialect.speech_quirks :=
       "Uses '¿Qué onda?', 'Órale', 'No manches', casual but clear" |}.

(** The argentine tutor of Spanish. *)
Definition martin : Dialect.t :=
  {| Dialect.voice_id := "VR6AewLTigWG4xSOukaG";
     Dialect.name := "Martín";
     Dialect.region := "Buenos Aires";
     Dialect.personality :=
       "Martín is a 38-year-old tango instructor - passionate and opinionated. He'll tell you exactly what he thinks. Uses 'Che, no, así no' when you're wrong. Philosophical about mistakes but expects improvement. Very expressive feedback.";
     Dialect.greeting :=
       "Che, ¿qué tal? Soy Martín. Dale, mostrame qué tenés.";
     Dialect.speech_quirks :=
       "Uses 'Che', 'Vos', 'Dale', dramatic pauses, Italian-influenced intonation" |}.

Definition spanish : Lang.t :=
  {| Lang.code := "es-ES";
     Lang.name := "Spanish";
     Lang.flag := "🇪🇸";
     Lang.translate_code := "es";
     Lang.dialects :=
       [ ("castilian", carmen);
         ("mexican", carlos);
         ("argentine", martin) ] |}.

(** The parisian tutor of French. *)
Definition amelie : Dialect.t :=
  {| Dialect.voice_id := "pNInz6obpgDQGcFmaJgB";
     Dialect.name := "Amélie";
     Dialect.region := "Paris";
     Dialect.personality :=
       "Amélie is a 29-year-old fashion editor - elegant but exacting. She notices every mistake and will raise an eyebrow before correcting you. Says 'Hmm, non, pas exactement...' often. Appreciates when you try but has standards. Slightly intimidating but fair.";
     Dialect.greeting :=
       "Bonjour. Je suis Amélie. Voyons voir ce que vous savez faire.";
     Dialect.speech_quirks :=
       "Uses 'Enfin...', 'Bon...', 'Euh...', slight sighs, precise pronunciation" |}.

(** The quebec tutor of French. *)
Definition jean_pierre : Dialect.t :=
  {| Dialect.voice_id := "ErXwobaYiN019PkySvjV";
     Dialect.name := "Jean-Pierre";
     Dialect.region := "Montreal, Quebec";
     Dialect.personality :=
       "Jean-Pierre is a 42-year-old hockey coach - gruff but caring. Doesn't sugarcoat anything. Will say 'Ben non, c'est pas ça!' and then patiently explain. Tough love approach. Celebrates real wins, not participation trophies.";
     Dialect.greeting :=
       "Salut! Moi c'est Jean-Pierre. Envoye, montre-moi c'que t'as!";
     Dialect.speech_quirks :=
       "Uses 'Ben', 'Pantoute', 'Icitte', 'Tabarouette', casual but direct" |}.

(** The southern tutor of French. *)
Definition pierre : Dialect.t :=
  {| Dialect.voice_id := "VR6AewLTigWG4xSOukaG";
     Dialect.name := "Pierre";
     Dialect.region := "Marseille, Provence";
     Dialect.personality :=
       "Pierre is a 50-year-old chef - warm but no-nonsense. Like in his kitchen, mistakes are learning opportunities but repeated mistakes get called out. Says 'Oh peuchère, non!' when you mess up. Genuine praise when earned.";
     Dialect.greeting :=
       "Aïe, bonjour! Moi c'est Pierre. Allez, on voit ce que tu sais!";
     Dialect.speech_quirks :=
       "Uses 'Peuchère', 'Fan', elongated vowels, Mediterranean warmth with honesty" |}.

Definition french : Lang.t :=
  {| Lang.code := "fr-FR";
     Lang.name := "French";
     Lang.flag := "🇫🇷";
     Lang.translate_code := "fr";
     Lang.dialects :=
       [ ("parisian", amelie);
         ("quebec", jean_pierre);
         ("southern", pierre) ] |}.

(** The hochdeutsch tutor of German. *)
Definition anna : Dialect.t :=
  {| Dialect.voice_id := "pNInz6obpgDQGcFmaJgB";
     Dialect.name := "Anna";
     Dialect.region := "Berlin";
     Dialect.personality :=
       "Anna is a 34-year-old engineer - precise, logical, and direct. German directness means she tells you exactly what's wrong without softening it. 'Das ist falsch' (That's wrong) followed by clear explanation. Efficient feedback, no fluff.";
     Dialect.greeting :=
       "Hallo. Ich bin Anna. Lass uns sehen, wie gut dein Deutsch ist.";
     Dialect.speech_quirks :=
       "Uses 'Also...', 'Genau', 'Naja...', very structured explanations" |}.

(** The bavarian tutor of German. *)
Definition hans : Dialect.t :=
  {| Dialect.voice_id := "ErXwobaYiN019PkySvjV";
     Dialect.name := "Hans";
     Dialect.region := "Munich, Bavaria";
     Dialect.personality :=
       "Hans is a 48-year-old Biergarten owner - jovial but tells it like it is. Will laugh at bad attempts and say 'Na, des war nix!' (Nope, that was nothing!) but helps you get it right. Honest in a friendly, teasing way.";
     Dialect.greeting :=
       "Servus! I bin da Hans. Zeig ma, was'd drauf hast!";
     Dialect.speech_quirks :=
       "Uses 'Servus', 'Ja mei', 'Des passt scho', Bavarian directness with humor" |}.

(** The austrian tutor of German. *)
Definition wolfgang : Dialect.t :=
  {| Dialect.voice_id := "VR6AewLTigWG4xSOukaG";
     Dialect.name := "Wolfgang";
     Dialect.region := "Vienna, Austria";
     Dialect.personality :=
       "Wolfgang is a 40-year-old classical musician - cultured with dry wit. Will give you a look and say 'Naja, das war... interessant' (Well, that was... interesting) when you mess up. Subtle criticism, expects you to catch it.";
     Dialect.greeting :=
       "Grüß Gott. Ich bin Wolfgang. Mal schauen, was Sie können.";
     Dialect.speech_quirks :=
       "Uses 'Leiwand', 'Geh bitte', subtle sarcasm, elegant but honest" |}.

Definition german : Lang.t :=
  {| Lang.code := "de-DE";
     Lang.name := "German";
     Lang.flag := "🇩🇪";
     Lang.translate_code := "de";
     Lang.dialects :=
       [ ("hochdeutsch", anna);
         ("bavarian", hans);
         ("austrian", wolfgang) ] |}.

(** The tokyo tutor of Japanese. *)
Definition yuki : Dialect.t :=
  {| Dialect.voice_id := "pNInz6obpgDQGcFmaJgB";
     Dialect.name := "Yuki";
     Dialect.region := "Tokyo";
     Dialect.personality :=
       "Yuki is a 26-year-old tech worker - polite but precise. Uses Japanese indirectness but you'll know when you're wrong. 'Chotto chigaimasu ne...' (That's a bit different...) means you messed up. Gentle but expects improvement.";
     Dialect.greeting :=
       "こんにちは。ゆきです。さあ、やってみましょう。";
     Dialect.speech_quirks :=
       "Uses 'ちょっと...', 'そうですね...', polite but clear when correcting" |}.

(** The osaka tutor of Japanese. *)
Definition kenji : Dialect.t :=
  {| Dialect.voice_id := "ErXwobaYiN019PkySvjV";
     Dialect.name := "Kenji";
     Dialect.region := "Osaka";
     Dialect.personality :=
       "Kenji is a 35-year-old comedian - direct Osaka style. Will say 'Chau chau!' (Wrong wrong!) and laugh. Osaka people are famously blunt. Makes learning fun but doesn't pretend bad Japanese is good. Teases mistakes playfully.";
     Dialect.greeting :=
       "おおきに！ケンジやで。ほな、やってみ！";
     Dialect.speech_quirks :=
       "Uses 'ちゃうちゃう', 'なんでやねん', 'あかん', blunt Osaka humor" |}.

(** The kyoto tutor of Japanese. *)
Definition haruka : Dialect.t :=
  {| Dialect.voice_id := "VR6AewLTigWG4xSOukaG";
     Dialect.name := "Haruka";
     Dialect.region := "Kyoto";
     Dialect.personality :=
       "Haruka is a 45-year-old tea ceremony instructor - graceful but with high standards. Kyoto politeness can be cutting - 'Ma, yoroshii n desu kedo...' (Well, it's fine but...) means it's not fine. Subtle criticism, expects refinement.";
     Dialect.greeting :=
       "おこしやす。はるかどす。お手並み拝見させてもらいますえ。";
     Dialect.speech_quirks :=
       "Uses 'どす', 'え', Kyoto indirectness that somehow still stings" |}.

Definition japanese : Lang.t :=
  {| Lang.code := "ja-JP";
     Lang.name := "Japanese";
     Lang.flag := "🇯🇵";
     Lang.translate_code := "ja";
     Lang.dialects :=
       [ ("tokyo", yuki);
         ("osaka", kenji);
         ("kyoto", haruka) ] |}.

Definition SUPPORTED_LANGUAGES : list (string * Lang.t) :=
  [ ("italian", italian);
    ("spanish", spanish);
    ("french", french);
    ("german", german);
    ("japanese", japanese) ].

(** [SUPPORTED_LANGUAGES.get(language, SUPPORTED_LANGUAGES["italian"])]:
    the default is an argument, so its subscript is evaluated first. *)
Definition lang_config_of (language : string) : exc Lang.t :=
  try italian <- PyDict.subscript "italian" SUPPORTED_LANGUAGES ;
  Ok (PyDict.get language italian SUPPORTED_LANGUAGES).

(** [lang_config["dialects"].get(dialect,
      list(lang_config["dialects"].values())[0])] *)
Definition dialect_config_of (lang_config : Lang.t) (dialect : string)
  : exc Dialect.t :=
  try first <- list_index (PyDict.values (Lang.dialects lang_config)) 0 ;
  Ok (PyDict.get dialect first (Lang.dialects lang_config)).

(** ** The environment *)

(** [response.results] of the speech client, each result reduced to
    [alternatives[0].transcript].  A first result without alternatives
    makes that subscript raise inside the [try]; the environment reports
    it as a raised call. *)
Definition recognition := list string.

(** What [translate_client.detect_language] returns: a dict (with its
    ["language"] entry, when it has one), a list of such values, or
    something else.  A ["language"] entry that is not a [str] makes
    [.lower()] raise inside the [try]; the environment reports that as a
    raised call. *)
Inductive detection : Type :=
  | DetDict (language : option string)
  | DetList (items : list detection)
  | DetOther.

(** The variable parts of the f-string prompt of [analyze_with_gemini]:
    the persona and language name used by [get_tutor_prompt], the [user]
    and [tutor] values of the turns kept from the history, and the
    transcript. *)
Record Prompt := {
  tutor : Dialect.t;
  target_language : string;
  recent_turns : list (json * json);
  learner_said : string
}.

(** The response of [http_client.post]: [raise_for_status] raises exactly
    when [status_error] holds a message. *)
Record HttpResponse := {
  status_code : Z;
  content : list Byte.byte;
  status_error : option string
}.

Record Env := {
  (** [json.loads]; [None] is [JSONDecodeError] *)
  json_loads : string -> option json;
  (** [html.unescape] *)
  html_unescape : string -> string;
  (** [base64.b64encode(...).decode("utf-8")] *)
  b64encode : list Byte.byte -> string;
  (** [speech_client.recognize] on the audio and the language code *)
  speech_recognize : list Byte.byte -> string -> exc recognition;
  (** [translate_client.detect_language] *)
  detect_language : string -> exc detection;
  (** [genai.GenerativeModel(model_name).generate_content(prompt, ...)];
      the inner outcome is the [text] property of the response *)
  generate_content : string -> Prompt -> exc (exc string);
  (** [translate_client.translate(text, source_language, target_language)]
      followed by [result["translatedText"]] *)
  translate : json -> string -> string -> exc string;
  (** [http_client.post] to the voice of [voice_id] with [text] *)
  elevenlabs_post : string -> json -> exc HttpResponse
}.

(** ** Helper functions with error handling *)

Definition transcribe_audio (env : Env) (audio_content : list Byte.byte)
    (language : string) : string * option string :=
  let body :=
    try lang_config <- lang_config_of language ;
    try results <- speech_recognize env audio_content (Lang.code lang_config) ;
    match results with
    | [] => Ok ("", Some "No speech detected. Please speak clearly and try again.")
    | transcript :: _ => Ok (transcript, None)
    end in
  match body with
  | Ok r => r
  | Raise e =>
      match cls e with
      | InvalidArgument =>
          ("", Some "Audio format not supported. Please try again.")
      | ResourceExhausted =>
          ("", Some "Service temporarily busy. Please wait a moment.")
      | _ => ("", Some ("Transcription failed: " +:+ msg e))
      end
  end.

Definition language_names : list (string * string) :=
  [
    ("en", "English"); ("it", "Italian"); ("es", "Spanish");
    ("fr", "French"); ("de", "German"); ("ja", "Japanese");
    ("zh", "Chinese"); ("zh-cn", "Chinese"); ("zh-tw", "Chinese");
    ("ko", "Korean"); ("pt", "Portuguese"); ("ru", "Russian");
    ("ar", "Arabic"); ("hi", "Hindi"); ("nl", "Dutch"); ("pl", "Polish");
    ("tr", "Turkish"); ("vi", "Vietnamese"); ("th", "Thai");
    ("sv", "Swedish"); ("da", "Danish"); ("no", "Norwegian");
    ("fi", "Finnish"); ("el", "Greek"); ("he", "Hebrew");
    ("id", "Indonesian"); ("ms", "Malay"); ("cs", "Czech");
    ("ro", "Romanian"); ("hu", "Hungarian"); ("uk", "Ukrainian");
    ("bg", "Bulgarian"); ("hr", "Croatian"); ("sk", "Slovak");
    ("sl", "Slovenian"); ("lt", "Lithuanian"); ("lv", "Latvian");
    ("et", "Estonian"); ("und", "Unknown"); ("", "Unknown") ].

(** [s.split("-")[0]] *)
Definition base_code (s : string) : exc string :=
  list_index (PyStr.split "-" s) 0.

Definition wrong_language_message (detected_name target_name : string)
  : string :=
  "🛑 Wrong language! You spoke in " +:+ detected_name +:+
  ", but we're practicing " +:+ target_name +:+
  ". Try again in " +:+ target_name +:+
  " - even if it's broken or just a few words!".

(** Lines 374-377: a list answer stands for its first item (an empty one
    for the empty dict), and only a dict has a language. *)
Definition detected_lang_of (detection : detection) : string :=
  let detection :=
    match detection with
    | DetList [] => DetDict None
    | DetList (d :: _) => d
    | d => d
    end in
  match detection with
  | DetDict language => PyStr.lower (default "" language)
  | _ => ""
  end.

(** Line 431: the readable name of a detected code. *)
Definition detected_name_of (detected_lang : string) : string :=
  PyDict.get detected_lang
    (if PyStr.truthy detected_lang then PyStr.upper detected_lang
     else "Unknown")
    language_names.

(** Returns [(is_mismatch, message, detected_language)]. *)
Definition detect_language_mismatch (env : Env) (transcript : string)
    (target_language : string) : bool * string * string :=
  if negb (PyStr.truthy transcript)
     || (PyStr.len (PyStr.strip transcript) <? 2)%nat
  then (false, "", "unknown")
  else
    let body :=
      try detection <- detect_language env transcript ;
      let detected_lang := detected_lang_of detection in
      try lang_config <- lang_config_of target_language ;
      let target_code := PyStr.lower (Lang.translate_code lang_config) in
      let detected_name := detected_name_of detected_lang in
      let target_name := Lang.name lang_config in
      if negb (PyStr.truthy detected_lang) || String.eqb detected_lang "und"
      then Ok (false, "", "unknown")
      else
        try detected_base <- base_code detected_lang ;
        try target_base <- base_code target_code ;
        if negb (String.eqb detected_base target_base)
        then Ok (true, wrong_language_message detected_name target_name,
                 detected_lang)
        else Ok (false, "", detected_lang) in
    match body with
    | Ok r => r
    | Raise _ => (false, "", "error")
    end.

(** The keys [reaction], [correction], [response], [cultural_note] and
    [encouragement] of the dict that [analyze_with_gemini] returns. *)
Record Feedback := {
  reaction : json;
  correction : json;
  response : json;
  cultural_note : json;
  encouragement : json
}.

(** The lookups of [get_tutor_prompt]; the text around them is fixed. *)
Definition get_tutor_prompt (language dialect : string)
  : exc (Lang.t * Dialect.t) :=
  try lang_config <- lang_config_of language ;
  try dialect_config <- dialect_config_of lang_config dialect ;
  Ok (lang_config, dialect_config).

Definition models_to_try : list string :=
  [ "gemini-2.0-flash-lite";
    "gemini-2.0-flash-lite-001";
    "gemini-flash-lite-latest";
    "gemini-2.0-flash";
    "gemini-2.0-flash-001";
    "gemini-flash-latest";
    "gemini-2.0-flash-exp" ].

(** [l[-2:]] *)
Definition last_two {A} (l : list A) : list A :=
  drop (length l - 2) l.

(** [history[-2:]] as the sequence the [for] loop walks.  The messages
    are CPython's up to 3.11; from 3.12 on the slice of a dict is a
    [KeyError] instead, whose message matches no quota pattern either. *)
Definition history_tail (history : json) : exc (list json) :=
  match history with
  | JArr items => Ok (last_two items)
  | JStr s =>
      (* a slice of a [str]; the loop then meets one-character strings *)
      Ok [JStr s]
  | JObj _ => Raise (Exn TypeError "unhashable type: 'slice'")
  | _ => Raise (Exn TypeError
                  ("'" +:+ Json.type_name history +:+
                   "' object is not subscriptable"))
  end.

Fixpoint history_turns (turns : list json) : exc (list (json * json)) :=
  match turns with
  | [] => Ok []
  | h :: rest =>
      try user <- Json.get "user" (JStr "") h ;
      try tutor <- Json.get "tutor" (JStr "") h ;
      try more <- history_turns rest ;
      Ok ((user, tutor) :: more)
  end.

(** The conversation context that goes into the prompt. *)
Definition history_context (history : json) : exc (list (json * json)) :=
  if Json.truthy history then
    try turns <- history_tail history ;
    history_turns turns
  else Ok [].

(** The [for model_name in models_to_try] loop: the response of the first
    model that does not raise, and the models called, in order. *)
Fixpoint try_models (env : Env) (prompt : Prompt) (models : list string)
  : option (string * exc string) * list string :=
  match models with
  | [] => (None, [])
  | model_name :: rest =>
      match generate_content env model_name prompt with
      | Ok response => (Some (model_name, response), [model_name])
      | Raise _ =>
          let '(found, calls) := try_models env prompt rest in
          (found, model_name :: calls)
      end
  end.

(** Line 535: what the loop logs as [quota exceeded]. *)
Definition is_quota_error (error_str : string) : bool :=
  PyStr.contains "429" error_str
  || PyStr.contains "quota" (PyStr.lower error_str)
  || PyStr.contains "resource" (PyStr.lower error_str).

(** Line 581: the test of the outer handler. *)
Definition is_quota_exhausted (error_msg : string) : bool :=
  PyStr.contains "429" error_msg
  || PyStr.contains "quota" (PyStr.lower error_msg)
  || PyStr.contains "resource" (PyStr.lower error_msg)
  || PyStr.contains "exhausted" (PyStr.lower error_msg).

Definition fence : string := "```".
Definition json_fence : string := "```json".

(** The body of a fenced code block, when the text has one. *)
Definition unfence (text : string) : exc string :=
  if PyStr.contains json_fence text then
    try inner <- list_index (PyStr.split json_fence text) 1 ;
    list_index (PyStr.split fence inner) 0
  else if PyStr.contains fence text then
    try inner <- list_index (PyStr.split fence text) 1 ;
    list_index (PyStr.split fence inner) 0
  else Ok text.

(** The [try] block of [analyze_with_gemini], with the models it called. *)
Definition gemini_feedback (env : Env) (transcript language dialect : string)
    (history : json) : exc Feedback * list string :=
  let prompt :=
    try persona <- get_tutor_prompt language dialect ;
    try turns <- history_context history ;
    Ok {| tutor := persona.2;
          target_language := Lang.name persona.1;
          recent_turns := turns;
          learner_said := transcript |} in
  match prompt with
  | Raise e => (Raise e, [])
  | Ok prompt =>
      let '(found, calls) := try_models env prompt models_to_try in
      (match found with
       | None => Raise (Exn Exception "All models exhausted or unavailable")
       | Some (successful_model, response) =>
           try text0 <- response ;
           try text <- unfence (PyStr.strip text0) ;
           match json_loads env (PyStr.strip text) with
           | None =>
               (* the handler of this class does not read the message *)
               Raise (Exn JSONDecodeError "Expecting value")
           | Some result =>
               try reaction <- Json.get "reaction" (JStr "") result ;
               try correction <- Json.get "correction" (JStr "") result ;
               try response <- Json.get "response" (JStr "") result ;
               try cultural_note <- Json.get "cultural_note" (JStr "") result ;
               try encouragement <- Json.get "encouragement" (JStr "") result ;
               Ok {| reaction := reaction;
                     correction := correction;
                     response := response;
                     cultural_note := cultural_note;
                     encouragement := encouragement |}
           end
       end, calls)
  end.

(** Gemini analysis, with language detection first.  The first component
    is the returned pair, or the exception that escapes when a lookup
    before the [try] fails; the second lists the generative models that
    were called. *)
Definition analyze_with_gemini (env : Env)
    (transcript language dialect : string) (history : json)
  : exc (option Feedback * option string) * list string :=
  let setup :=
    try lang_config <- lang_config_of language ;
    try dialect_info <- dialect_config_of lang_config dialect ;
    Ok (lang_config, dialect_info) in
  match setup with
  | Raise e => (Raise e, [])
  | Ok (lang_config, dialect_info) =>
      let '(is_wrong_language, wrong_lang_message, detected_lang) :=
        detect_language_mismatch env transcript language in
      if is_wrong_language then
        (Ok (Some {| reaction := JStr "Whoa, stop right there! 🛑";
                     correction := JStr wrong_lang_message;
                     response := JStr (Dialect.greeting dialect_info);
                     cultural_note := JStr "";
                     encouragement :=
                       JStr ("Come on, give " +:+ Lang.name lang_config +:+
                             " a try! Even one word counts.") |},
             None), [])
      else
        let '(attempt, calls) :=
          gemini_feedback env transcript language dialect history in
        (match attempt with
         | Ok result => Ok (Some result, None)
         | Raise e =>
             match cls e with
             | JSONDecodeError =>
                 Ok (Some {| reaction := JStr "I heard you!";
                             correction := JStr "Let me help you with that.";
                             response := JStr (Dialect.greeting dialect_info);
                             cultural_note := JStr "";
                             encouragement := JStr "Keep trying!" |},
                     None)
             | _ =>
                 let error_msg := msg e in
                 if is_quota_exhausted error_msg then
                   Ok (Some {| reaction := JStr "I heard you!";
                               correction := JStr "Let's work on that together.";
                               response := JStr (Dialect.greeting dialect_info);
                               cultural_note := JStr "";
                               encouragement := JStr "Keep practicing!" |},
                       None)
                 else Ok (None, Some ("AI analysis failed: " +:+ error_msg))
             end
         end, calls)
  end.

(** Google Translate with error handling. *)
Definition translate_text (env : Env) (text : json) (source_lang : string)
    (target_lang : string) : string * option string :=
  let body :=
    try lang_config <- lang_config_of source_lang ;
    try translated_text <-
      translate env text (Lang.translate_code lang_config) target_lang ;
    Ok (html_unescape env translated_text, None) in
  match body with
  | Ok r => r
  | Raise e => ("", Some ("Translation failed: " +:+ msg e))
  end.

(** ElevenLabs TTS with error handling. *)
Definition synthesize_speech (env : Env) (text : json)
    (language dialect : string) : string * option string :=
  let body :=
    try lang_config <- lang_config_of language ;
    try dialect_config <- dialect_config_of lang_config dialect ;
    try response <- elevenlabs_post env (Dialect.voice_id dialect_config) text ;
    if (status_code response =? 401)%Z then
      Ok ("", Some "ElevenLabs API key invalid")
    else if (status_code response =? 429)%Z then
      Ok ("", Some "Voice generation quota exceeded. Please try again later.")
    else
      match status_error response with
      | Some m => Raise (Exn Exception m)
      | None => Ok (b64encode env (content response), None)
      end in
  match body with
  | Ok r => r
  | Raise e =>
      match cls e with
      | TimeoutException =>
          ("", Some "Voice generation timed out. Please try again.")
      | _ => ("", Some ("Voice generation failed: " +:+ msg e))
      end
  end.

(** ** Rate limit middleware *)

Module Request.
(** [request.url.path] and [request.client.host], when there is a client. *)
Record t := mk {
  path : string;
  client_host : option string
}.
End Request.

(** Either the request goes on to its route, or the middleware answers
    with the 429 response, whose body and [Retry-After] header carry
    [retry_after]. *)
Inductive middleware_result : Type :=
  | CallNext
  | TooManyRequests (retry_after : option Z).

Definition rate_limit_exempt : list string :=
  ["/health"; "/dialects"; "/languages"].

Definition rate_limit_middleware (limiter : RateLimiter.t) (now : Q)
    (request : Request.t) : option (RateLimiter.t * middleware_result) :=
  if bool_decide (Request.path request ∈ rate_limit_exempt) then
    Some (limiter, CallNext)
  else
    let client_ip := default "unknown" (Request.client_host request) in
    match RateLimiter.is_allowed limiter now client_ip with
    | Some (limiter', (allowed, retry_after)) =>
        if negb allowed then Some (limiter', TooManyRequests retry_after)
        else Some (limiter', CallNext)
    | None => None
    end.

(** ** Main conversation endpoint *)

Module Complete.
(** The data of the [complete] event. *)
Record t := mk {
  transcript : string;
  reaction : json;
  correction : json;
  encouragement : json;
  cultural_note : json;
  response_native : json;
  response_english : string;
  audio_base64 : string;
  tutor_name : string;
  tutor_region : string;
  language : string;
  dialect : string
}.
End Complete.

Module Event.
(** A yielded dict: the constructor is its ["event"] entry, the
    arguments are the entries of the dict given to [json.dumps]. *)
Inductive t : Type :=
  | progress (step message : string) (progress : Z)
  | transcript (transcript : string)
  | analysis (reaction correction encouragement cultural_note : json)
  | translation (native : json) (english : string)
  | complete (data : Complete.t)
  | error (message : string).

Definition is_error (e : t) : bool :=
  match e with error _ => true | _ => false end.

Definition is_complete (e : t) : bool :=
  match e with complete _ => true | _ => false end.

(** The name of an event, with the step of a [progress] event. *)
Definition label (e : t) : string :=
  match e with
  | progress step _ _ => "progress(" +:+ step +:+ ")"
  | transcript _ => "transcript"
  | analysis _ _ _ _ => "analysis"
  | translation _ _ => "translation"
  | complete _ => "complete"
  | error _ => "error"
  end.

(** [error] and [complete] end a stream. *)
Definition is_terminal (e : t) : bool := is_error e || is_complete e.
End Event.

(** A generator body: the events yielded so far, and how the body went on. *)
Definition gen (A : Type) : Type := list Event.t * exc A.

Definition gen_bind {A B} (m : gen A) (k : A -> gen B) : gen B :=
  match m with
  | (evs, Ok a) => let '(evs', r) := k a in (evs ++ evs', r)
  | (evs, Raise e) => (evs, Raise e)
  end.

Definition yield (e : Event.t) : gen unit := ([e], Ok tt).
Definition call {A} (m : exc A) : gen A := ([], m).

Notation "m ;; k" := (gen_bind m (fun _ => k))
  (at level 100, k at level 200, right associativity).
Notation "'run' x <- m ; k" := (gen_bind m (fun x => k))
  (at level 10, x name, m at level 100, k at level 200).

(** [if error:] on an [Optional[str]]: the message, when it is truthy. *)
Definition if_error (error : option string) : option string :=
  match error with
  | Some e => if PyStr.truthy e then Some e else None
  | None => None
  end.

(** What the closure [generate_events] captures from [converse]. *)
Record Captured := {
  lang_config : Lang.t;
  dialect_config : Dialect.t;
  audio_content : list Byte.byte;
  language : string;
  dialect : string;
  conversation_history : json
}.

(** The [try] block of [generate_events]. *)
Definition generate_events_body (env : Env) (c : Captured) : gen unit :=
  yield (Event.progress "receiving"
           ("🎤 " +:+ Dialect.name (dialect_config c) +:+ " is listening...")
           10) ;;
  if (length (audio_content c) <? 1000)%nat then
    yield (Event.error "Audio too short. Please speak for at least 1 second.")
  else
    yield (Event.progress "transcribing"
             ("📝 Understanding your " +:+ Lang.name (lang_config c) +:+ "...")
             25) ;;
    let '(transcript, error) :=
      transcribe_audio env (audio_content c) (language c) in
    match if_error error with
    | Some error => yield (Event.error error)
    | None =>
    if negb (PyStr.truthy transcript) then
      yield (Event.error "Couldn't hear you clearly. Please try again!")
    else
      yield (Event.transcript transcript) ;;
      yield (Event.progress "analyzing"
               ("🤔 " +:+ Dialect.name (dialect_config c) +:+ " is thinking...")
               45) ;;
      run analysed <-
        call (analyze_with_gemini env transcript (language c) (dialect c)
                (conversation_history c)).1 ;
      let '(gemini_result, error) := analysed in
      match if_error error with
      | Some error => yield (Event.error error)
      | None =>
      run gemini_result <-
        call (match gemini_result with
              | Some result => Ok result
              | None => Raise (Exn AttributeError
                          "'NoneType' object has no attribute 'get'")
              end) ;
      yield (Event.analysis (reaction gemini_result) (correction gemini_result)
               (encouragement gemini_result) (cultural_note gemini_result)) ;;
      yield (Event.progress "translating" "🌐 Creating subtitles..." 65) ;;
      let native_response := response gemini_result in
      let '(translation, error) :=
        translate_text env native_response (language c) "en" in
      let translation :=
        match if_error error with
        | Some _ => "(Translation unavailable)"
        | None => translation
        end in
      yield (Event.translation native_response translation) ;;
      yield (Event.progress "synthesizing"
               ("🗣️ " +:+ Dialect.name (dialect_config c) +:+
                " is preparing to speak...")
               85) ;;
      let '(audio_base64, error) :=
        synthesize_speech env native_response (language c) (dialect c) in
      let audio_base64 :=
        match if_error error with
        | Some _ => ""
        | None => audio_base64
        end in
      yield (Event.progress "complete" "✅ Ready!" 100) ;;
      yield (Event.complete
               {| Complete.transcript := transcript;
                  Complete.reaction := reaction gemini_result;
                  Complete.correction := correction gemini_result;
                  Complete.encouragement := encouragement gemini_result;
                  Complete.cultural_note := cultural_note gemini_result;
                  Complete.response_native := native_response;
                  Complete.response_english := translation;
                  Complete.audio_base64 := audio_base64;
                  Complete.tutor_name := Dialect.name (dialect_config c);
                  Complete.tutor_region := Dialect.region (dialect_config c);
                  Complete.language := language c;
                  Complete.dialect := dialect c |})
      end
    end.

(** The events of the stream: the body's, and the generic [error] event
    of the [except Exception] clause when the body raised. *)
Definition generate_events (env : Env) (c : Captured) : list Event.t :=
  match generate_events_body env c with
  | (evs, Ok _) => evs
  | (evs, Raise _) =>
      evs ++ [Event.error "Something went wrong. Please try again!"]
  end.

Module Converse.
(** The audio file and the query parameters of [POST /converse]. *)
Record t := mk {
  audio : list Byte.byte;
  language : string;
  dialect : string;
  history : string
}.
End Converse.

(** Lines 707-713 of [converse] (and 854-860 of [get_greeting]): the
    language configuration, the dialect key in force and its persona. *)
Definition resolve_persona (language dialect : string)
  : exc (Lang.t * string * Dialect.t) :=
  try lang_config <- lang_config_of language ;
  let available_dialects := PyDict.keys (Lang.dialects lang_config) in
  try dialect <-
    (if negb (PyStr.truthy dialect)
        || negb (bool_decide (dialect ∈ available_dialects))
     then list_index available_dialects 0
     else Ok dialect) ;
  try dialect_config <- PyDict.subscript dialect (Lang.dialects lang_config) ;
  Ok (lang_config, dialect, dialect_config).

(** [json.loads(history)] under the bare [except]. *)
Definition parse_history (env : Env) (history : string) : json :=
  match json_loads env history with
  | Some conversation_history => conversation_history
  | None => JArr []
  end.

(** What [converse] hands to the generator. *)
Definition converse_captured (env : Env) (request : Converse.t)
  : exc Captured :=
  try persona <- resolve_persona (Converse.language request)
                   (Converse.dialect request) ;
  let '(lang_config, dialect, dialect_config) := persona in
  Ok {| lang_config := lang_config;
        dialect_config := dialect_config;
        audio_content := Converse.audio request;
        language := Converse.language request;
        dialect := dialect;
        conversation_history := parse_history env (Converse.history request) |}.

(** [POST /converse]: the event stream, or the exception that the global
    handler turns into the 500 response. *)
Definition converse (env : Env) (request : Converse.t) : exc (list Event.t) :=
  try c <- converse_captured env request ;
  Ok (generate_events env c).

(** ** Runs of the limiter *)

(** [is_allowed] called for one client at each clock reading of [times],
    in turn: the limiter afterwards and the answers, in order. *)
Fixpoint is_allowed_run (self : RateLimiter.t) (client_ip : string)
    (times : list Q) : option (RateLimiter.t * list (bool * option Z)) :=
  match times with
  | [] => Some (self, [])
  | now :: rest =>
      match RateLimiter.is_allowed self now client_ip with
      | Some (self', answer) =>
          match is_allowed_run self' client_ip rest with
          | Some (self'', answers) => Some (self'', answer :: answers)
          | None => None
          end
      | None => None
      end
  end.

(** The middleware on a sequence of requests, each with the clock
    reading at which it arrives. *)
Fixpoint middleware_run (limiter : RateLimiter.t)
    (arrivals : list (Q * Request.t))
  : option (RateLimiter.t * list middleware_result) :=
  match arrivals with
  | [] => Some (limiter, [])
  | (now, request) :: rest =>
      match rate_limit_middleware limiter now request with
      | Some (limiter', result) =>
          match middleware_run limiter' rest with
          | Some (limiter'', results) => Some (limiter'', result :: results)
          | None => None
          end
      | None => None
      end
  end.

(** The timestamps lie in one window: any two are less than [window]
    apart. *)
Definition within_window (window : Q) (times : list Q) : Prop :=
  ∀ a b, a ∈ times → b ∈ times → (a - b < window)%Q.

(** The time until the stamp [oldest] leaves the window, as
    [is_allowed] computes it at clock reading [now]. *)
Definition time_to_expiry (window now oldest : Q) : Q :=
  (window - (now - oldest))%Q.

(** ** A concrete session

    An Italian learner with the Roman tutor; the values are what the
    services answer in this session. *)

Module Scenario.

Definition quoted (s : string) : string :=
  PyStr.dquote +:+ s +:+ PyStr.dquote.

(** The reply of the generative model, a JSON object. *)
Definition reply_text : string :=
  "{" +:+ quoted "reaction" +:+ ": " +:+ quoted "Bene!" +:+ ", "
  +:+ quoted "correction" +:+ ": " +:+ quoted "Perfect!" +:+ ", "
  +:+ quoted "response" +:+ ": " +:+ quoted "Sto bene, grazie! E tu?" +:+ ", "
  +:+ quoted "cultural_note" +:+ ": " +:+ quoted "" +:+ ", "
  +:+ quoted "encouragement" +:+ ": " +:+ quoted "You're getting it!" +:+ "}".

Definition reply_json : json :=
  JObj [ ("reaction", JStr "Bene!");
         ("correction", JStr "Perfect!");
         ("response", JStr "Sto bene, grazie! E tu?");
         ("cultural_note", JStr "");
         ("encouragement", JStr "You're getting it!") ].

(** [json.loads] on the texts of the session: the model's reply, a JSON
    list and the empty history; any other text of the session is not
    JSON. *)
Definition loads (text : string) : option json :=
  if String.eqb text reply_text then Some reply_json
  else if String.eqb text "[1, 2]" then Some (JArr [JInt 1; JInt 2])
  else if String.eqb text "[]" then Some (JArr [])
  else None.

Definition b64_alphabet : list ascii :=
  String.list_ascii_of_string
    "ABCDEFGHIJKLMNOPQRSTUVWXYZabcdefghijklmnopqrstuvwxyz0123456789+/".

Definition b64_digit (n : N) : ascii :=
  nth (N.to_nat (n mod 64)) b64_alphabet "="%char.

Definition pad : ascii := "="%char.

Fixpoint b64 (bs : list Byte.byte) : string :=
  match bs with
  | [] => EmptyString
  | [a] =>
      let n := (Byte.to_N a * 65536)%N in
      String (b64_digit (n / 262144))
        (String (b64_digit (n / 4096)) (String pad (String pad EmptyString)))
  | [a; b] =>
      let n := (Byte.to_N a * 65536 + Byte.to_N b * 256)%N in
      String (b64_digit (n / 262144))
        (String (b64_digit (n / 4096))
           (String (b64_digit (n / 64)) (String pad EmptyString)))
  | a :: b :: c :: rest =>
      let n := (Byte.to_N a * 65536 + Byte.to_N b * 256 + Byte.to_N c)%N in
      String (b64_digit (n / 262144))
        (String (b64_digit (n / 4096))
           (String (b64_digit (n / 64)) (String (b64_digit n) (b64 rest))))
  end.

(** The session's environment, given what the detector, the models and
    the translator answer.  The translations hold no HTML entity. *)
Definition env_with (detected : exc detection)
    (generate : string -> exc (exc string)) (translated : exc string) : Env :=
  {| json_loads := loads;
     html_unescape := fun text => text;
     b64encode := b64;
     speech_recognize := fun _ _ => Ok ["Ciao, come stai?"];
     detect_language := fun _ => detected;
     generate_content := fun model_name _ => generate model_name;
     translate := fun _ _ _ => translated;
     elevenlabs_post := fun _ _ =>
       Ok {| status_code := 200;
             content := [Byte.x49; Byte.x44; Byte.x33];
             status_error := None |} |}.

Definition italian_detected : exc detection := Ok (DetDict (Some "it")).
Definition english_detected : exc detection := Ok (DetDict (Some "en")).

Definition answers (model_name : string) : exc (exc string) :=
  Ok (Ok reply_text).

(** Every model refuses for lack of quota. *)
Definition out_of_quota (model_name : string) : exc (exc string) :=
  Raise (Exn ResourceExhausted "429 Resource has been exhausted (e.g. check quota).").

(** Every model breaks with an internal error of the service. *)
Definition internal_errors (model_name : string) : exc (exc string) :=
  Raise (Exn Exception "500 Internal error encountered.").

(** The first model answers with a JSON list. *)
Definition answers_list (model_name : string) : exc (exc string) :=
  Ok (Ok "[1, 2]").

Definition english_gloss : exc string := Ok "I'm fine, thanks! And you?".

Definition translator_down : exc string :=
  Raise (Exn Exception "503 Service Unavailable").

(** Everything works. *)
Definition env : Env := env_with italian_detected answers english_gloss.

Definition env_wrong_language : Env :=
  env_with english_detected answers english_gloss.

Definition env_out_of_quota : Env :=
  env_with italian_detected out_of_quota english_gloss.

Definition env_internal_errors : Env :=
  env_with italian_detected internal_errors english_gloss.

Definition env_answers_list : Env :=
  env_with italian_detected answers_list english_gloss.

Definition env_translator_down : Env :=
  env_with italian_detected answers translator_down.

(** A recording of 1200 bytes, and one of 12. *)
Definition recording : list Byte.byte := replicate 1200 Byte.x00.
Definition short_recording : list Byte.byte := replicate 12 Byte.x00.

Definition request : Converse.t :=
  Converse.mk recording "italian" "roman" "[]".

Definition short_request : Converse.t :=
  Converse.mk short_recording "italian" "roman" "[]".

(** What [converse] hands to the generator for [request]. *)
Definition captured : Captured :=
  {| lang_config := italian;
     dialect_config := marco;
     audio_content := recording;
     language := "italian";
     dialect := "roman";
     conversation_history := JArr [] |}.

(** The feedback decoded from [reply_text]. *)
Definition feedback : Feedback :=
  {| reaction := JStr "Bene!";
     correction := JStr "Perfect!";
     response := JStr "Sto bene, grazie! E tu?";
     cultural_note := JStr "";
     encouragement := JStr "You're getting it!" |}.

(** A request whose history is not JSON. *)
Definition request_bad_history : Converse.t :=
  Converse.mk recording "italian" "roman" "not json".

(** A request for a language and a dialect outside the catalog. *)
Definition request_unknown : Converse.t :=
  Converse.mk recording "klingon" "battle" "[]".

(** Twenty clock readings a second apart, from 100 on. *)
Definition twenty_times : list Q :=
  map (fun k => inject_Z (100 + Z.of_nat k)) (seq 0 20).

(** Twenty conversation turns of one client at those readings. *)
Definition twenty_turns : list (Q * Request.t) :=
  map (fun now => (now, Request.mk "/converse" (Some "10.0.0.1")))
    twenty_times.

(** The same client then asks for the dialects of Italian. *)
Definition dialects_request : Request.t :=
  Request.mk "/dialects/italian" (Some "10.0.0.1").

End Scenario.

(** ** Further cases

    Limiter records and environments for particular failures, built on
    the session above. *)

Module Cases.

Definition client : string := "10.0.0.1".
Definition other_client : string := "10.0.0.2".

(** The client has used its twenty requests, at the readings 100 to
    119. *)
Definition full_limiter : RateLimiter.t :=
  RateLimiter.mk RATE_LIMIT_REQUESTS RATE_LIMIT_WINDOW
    {[ client := Scenario.twenty_times ]}.

(** The same limiter after a check of the client; a denial stores the
    cleaned list, which is the same list at any reading before 160. *)
Definition full_limiter_checked : RateLimiter.t :=
  RateLimiter.mk RATE_LIMIT_REQUESTS RATE_LIMIT_WINDOW
    (<[ client := Scenario.twenty_times ]>
       {[ client := Scenario.twenty_times ]}).

Definition with_speech (env : Env) (speech : exc recognition) : Env :=
  {| json_loads := json_loads env;
     html_unescape := html_unescape env;
     b64encode := b64encode env;
     speech_recognize := fun _ _ => speech;
     detect_language := detect_language env;
     generate_content := generate_content env;
     translate := translate env;
     elevenlabs_post := elevenlabs_post env |}.

Definition with_voice (env : Env) (post : exc HttpResponse) : Env :=
  {| json_loads := json_loads env;
     html_unescape := html_unescape env;
     b64encode := b64encode env;
     speech_recognize := speech_recognize env;
     detect_language := detect_language env;
     generate_content := generate_content env;
     translate := translate env;
     elevenlabs_post := fun _ _ => post |}.

Definition with_loads (env : Env) (loads : string -> option json) : Env :=
  {| json_loads := loads;
     html_unescape := html_unescape env;
     b64encode := b64encode env;
     speech_recognize := speech_recognize env;
     detect_language := detect_language env;
     generate_content := generate_content env;
     translate := translate env;
     elevenlabs_post := elevenlabs_post env |}.

(** The speech service is out of quota. *)
Definition env_speech_busy : Env :=
  with_speech Scenario.env
    (Raise (Exn ResourceExhausted "429 Quota exceeded for speech")).

(** The speech service hears nothing worth a transcript. *)
Definition env_silence : Env := with_speech Scenario.env (Ok [""]).

(** The voice service rejects the key, with a body all the same. *)
Definition env_voice_unauthorized : Env :=
  with_voice Scenario.env
    (Ok {| status_code := 401;
           content := [Byte.x7b; Byte.x7d];
           status_error := Some "401 Unauthorized" |}).

(** The voice service does not answer in time. *)
Definition env_voice_timeout : Env :=
  with_voice Scenario.env (Raise (Exn TimeoutException "timed out")).

(** The model answers in prose. *)
Definition prose (model_name : string) : exc (exc string) :=
  Ok (Ok "Sorry, I can only answer in Italian.").

Definition env_prose : Env :=
  Scenario.env_with Scenario.italian_detected prose Scenario.english_gloss.

(** The model answers with an empty JSON object, inside a fence. *)
Definition fenced_empty_object (model_name : string) : exc (exc string) :=
  Ok (Ok "Here you are: ```json {} ``` Ciao!").

Definition loads (text : string) : option json :=
  if String.eqb text "{}" then Some (JObj []) else Scenario.loads text.

Definition env_empty_object : Env :=
  with_loads
    (Scenario.env_with Scenario.italian_detected fenced_empty_object
       Scenario.english_gloss)
    loads.

(** The detector breaks. *)
Definition env_detector_down : Env :=
  Scenario.env_with (Raise (Exn Exception "503 Service Unavailable"))
    Scenario.answers Scenario.english_gloss.

(** The first two models are out of quota, the third answers. *)
Definition third_answers (model_name : string) : exc (exc string) :=
  if String.eqb model_name "gemini-flash-lite-latest"
  then Ok (Ok Scenario.reply_text)
  else Raise (Exn ResourceExhausted "429 Quota exceeded").

Definition env_third_answers : Env :=
  Scenario.env_with Scenario.italian_detected third_answers
    Scenario.english_gloss.

End Cases.

(** ** The other endpoints *)

Module Greeting.
(** The dict that [get_greeting] returns. *)
Record t := mk {
  tutor_name : string;
  region : string;
  greeting_native : string;
  greeting_english : string;
  audio_base64 : string;
  personality : string
}.
End Greeting.

(** [GET /greeting]: the greeting, or the exception that the global
    handler turns into the 500 response.  The audio is generated only on
    request, and the errors of both adapters are dropped. *)
Definition get_greeting (env : Env) (language dialect : string)
    (include_audio : bool) : exc Greeting.t :=
  try persona <- resolve_persona language dialect ;
  let '(lang_config, dialect, dialect_config) := persona in
  let audio_base64 :=
    if include_audio then
      (synthesize_speech env (JStr (Dialect.greeting dialect_config))
         language dialect).1
    else "" in
  let translation :=
    (translate_text env (JStr (Dialect.greeting dialect_config)) language
       "en").1 in
  Ok {| Greeting.tutor_name := Dialect.name dialect_config;
        Greeting.region := Dialect.region dialect_config;
        Greeting.greeting_native := Dialect.greeting dialect_config;
        Greeting.greeting_english := translation;
        Greeting.audio_base64 := audio_base64;
        Greeting.personality := Dialect.personality dialect_config |}.

Module LanguageInfo.
(** An entry of the dict that [get_languages] returns; each dialect is
    listed with its name and region. *)
Record t := mk {
  name : string;
  flag : string;
  dialects : list (string * (string * string))
}.
End LanguageInfo.

(** [GET /languages] *)
Definition get_languages : list (string * LanguageInfo.t) :=
  map (fun entry : string * Lang.t =>
         (entry.1,
          {| LanguageInfo.name := Lang.name entry.2;
             LanguageInfo.flag := Lang.flag entry.2;
             LanguageInfo.dialects :=
               map (fun d : string * Dialect.t =>
                      (d.1, (Dialect.name d.2, Dialect.region d.2)))
                 (Lang.dialects entry.2) |}))
    SUPPORTED_LANGUAGES.

Module DialectList.
(** The dict that [get_dialects] returns; each dialect is listed with
    its name, region and personality. *)
Record t := mk {
  language : string;
  flag : string;
  dialects : list (string * (string * string * string))
}.
End DialectList.

(** A route that answers, or raises [HTTPException] with a 404 status
    and a detail. *)
Inductive http_result (A : Type) : Type :=
  | Http200 (body : A)
  | Http404 (detail : string).
Arguments Http200 {A} body.
Arguments Http404 {A} detail.

(** [GET /dialects/{language}] *)
Definition get_dialects (language : string) : http_result DialectList.t :=
  match PyDict.lookup language SUPPORTED_LANGUAGES with
  | None => Http404 ("Language '" +:+ language +:+ "' not supported")
  | Some lang_config =>
      Http200
        {| DialectList.language := Lang.name lang_config;
           DialectList.flag := Lang.flag lang_config;
           DialectList.dialects :=
             map (fun d : string * Dialect.t =>
                    (d.1, (Dialect.name d.2, Dialect.region d.2,
                           Dialect.personality d.2)))
               (Lang.dialects lang_config) |}
  end.

(** ** Readings of a stream *)

(** The percentage of a [progress] event. *)
Definition progress_of (e : Event.t) : option Z :=
  match e with
  | Event.progress _ _ percent => Some percent
  | _ => None
  end.

(** The percentages a stream can show, in order. *)
Definition progress_scale : list Z := [10; 25; 45; 65; 85; 100]%Z.

(** The order of the events of a complete run. *)
Definition complete_labels : list string :=
  [ "progress(receiving)"; "progress(transcribing)"; "transcript";
    "progress(analyzing)"; "analysis"; "progress(translating)";
    "translation"; "progress(synthesizing)"; "progress(complete)";
    "complete" ].

(** The character [c] does not occur in [s]. *)
Definition lacks (c : ascii) (s : string) : Prop :=
  PyStr.contains (String c "") s = false.

(** * Properties *)

(** ** Dicts *)

Lemma lookup_elem_values {V} (k : string) (d : list (string * V)) (v : V) :
  PyDict.lookup k d = Some v → v ∈ PyDict.values d.
Proof.
  induction d as [|[k' v'] d IH]; simpl; [discriminate|].
  destruct (String.eqb k k').
  - intros [= ->]. apply list_elem_of_here.
  - intros H. apply list_elem_of_further, IH, H.
Qed.

Lemma lookup_None_keys {V} (k : string) (d : list (string * V)) :
  PyDict.lookup k d = None ↔ k ∉ PyDict.keys d.
Proof.
  induction d as [|[k' v'] d IH]; simpl.
  - split; [intros _; apply not_elem_of_nil | done].
  - destruct (String.eqb k k') eqn:E.
    + apply String.eqb_eq in E as ->.
      split; [discriminate|]. intros H. destruct H. apply list_elem_of_here.
    + apply String.eqb_neq in E. rewrite not_elem_of_cons. tauto.
Qed.

Lemma lookup_Some_keys {V} (k : string) (d : list (string * V)) :
  k ∈ PyDict.keys d → is_Some (PyDict.lookup k d).
Proof.
  intros H. destruct (PyDict.lookup k d) eqn:E; [eauto|].
  apply lookup_None_keys in E. contradiction.
Qed.

Lemma get_elem_values {V} (k : string) (dflt : V) (d : list (string * V)) :
  PyDict.get k dflt d = dflt ∨ PyDict.get k dflt d ∈ PyDict.values d.
Proof.
  unfold PyDict.get. destruct (PyDict.lookup k d) eqn:E; [right|left; done].
  eapply lookup_elem_values, E.
Qed.

(** ** The catalog *)

Lemma catalog_has_italian :
  is_Some (PyDict.lookup "italian" SUPPORTED_LANGUAGES).
Proof. vm_compute. eauto. Qed.

Lemma catalog_dialects_nonempty :
  Forall (fun l => Lang.dialects l ≠ []) (PyDict.values SUPPORTED_LANGUAGES).
Proof. unfold SUPPORTED_LANGUAGES. simpl. repeat constructor; discriminate. Qed.

(** The language lookup never raises: an unknown key gives the Italian
    entry, a known key its own, and the entry has a dialect. *)
Lemma lang_config_of_total (language : string) :
  ∃ lang_config,
    lang_config_of language = Ok lang_config
    ∧ Lang.dialects lang_config ≠ []
    ∧ (PyDict.lookup language SUPPORTED_LANGUAGES = None →
       PyDict.lookup "italian" SUPPORTED_LANGUAGES = Some lang_config)
    ∧ (∀ l, PyDict.lookup language SUPPORTED_LANGUAGES = Some l →
            lang_config = l).
Proof.
  destruct catalog_has_italian as [italian Hit].
  unfold lang_config_of, PyDict.subscript. rewrite Hit. cbn [exc_bind].
  exists (PyDict.get language italian SUPPORTED_LANGUAGES).
  split; [done|]. split.
  - pose proof catalog_dialects_nonempty as Hne.
    rewrite Forall_forall in Hne.
    destruct (get_elem_values language italian SUPPORTED_LANGUAGES) as [->|Hin].
    + apply Hne. eapply lookup_elem_values, Hit.
    + apply Hne, Hin.
  - unfold PyDict.get. split.
    + intros ->. done.
    + intros l ->. done.
Qed.

(** The dialect lookup of the adapters never raises on an entry that has
    a dialect. *)
Lemma dialect_config_of_total (lang_config : Lang.t) (dialect : string) :
  Lang.dialects lang_config ≠ [] →
  ∃ dialect_config, dialect_config_of lang_config dialect = Ok dialect_config.
Proof.
  intros Hne. unfold dialect_config_of, list_index.
  destruct (Lang.dialects lang_config) as [|[k v] rest]; [done|].
  simpl. eauto.
Qed.

(** The dialect part of the resolution, for a language entry that
    declares a dialect. *)
Lemma resolve_persona_with (language dialect : string) (lc : Lang.t) :
  lang_config_of language = Ok lc →
  Lang.dialects lc ≠ [] →
  ∃ dialect' dialect_config,
    resolve_persona language dialect = Ok (lc, dialect', dialect_config)
    ∧ PyDict.lookup dialect' (Lang.dialects lc) = Some dialect_config
    ∧ (dialect = "" ∨ dialect ∉ PyDict.keys (Lang.dialects lc) →
       head (Lang.dialects lc) = Some (dialect', dialect_config))
    ∧ (dialect ≠ "" → dialect ∈ PyDict.keys (Lang.dialects lc) →
       dialect' = dialect).
Proof.
  intros Hlc Hne.
  unfold resolve_persona. rewrite Hlc. cbn [exc_bind].
  destruct (Lang.dialects lc) as [|[k0 d0] rest] eqn:Hd; [done|].
  destruct (decide (dialect = "" ∨ dialect ∉ PyDict.keys ((k0, d0) :: rest)))
    as [Hbad|Hgood].
  - (* the fallback: the first declared dialect *)
    assert (negb (PyStr.truthy dialect)
            || negb (bool_decide (dialect ∈ PyDict.keys ((k0, d0) :: rest)))
            = true) as ->.
    { destruct Hbad as [->|Hnot]; [done|].
      rewrite (bool_decide_eq_false_2 _ Hnot). apply orb_true_r. }
    unfold list_index, PyDict.subscript. simpl. rewrite String.eqb_refl. simpl.
    exists k0, d0. rewrite String.eqb_refl.
    repeat split; try done.
    intros Hnonempty Hin. destruct Hbad; done.
  - (* a dialect of the language *)
    assert (Hnonempty : dialect ≠ "") by (intros ?; apply Hgood; by left).
    assert (Hin : dialect ∈ PyDict.keys ((k0, d0) :: rest))
      by (apply dec_stable; intros ?; apply Hgood; by right).
    assert (negb (PyStr.truthy dialect)
            || negb (bool_decide (dialect ∈ PyDict.keys ((k0, d0) :: rest)))
            = false) as ->.
    { rewrite (bool_decide_eq_true_2 _ Hin).
      destruct dialect; [done|reflexivity]. }
    destruct (lookup_Some_keys _ _ Hin) as [dc Hdc].
    unfold PyDict.subscript. cbn [exc_bind]. rewrite Hdc. cbn [exc_bind].
    exists dialect, dc.
    repeat split; try done.
Qed.

(** C9. Persona resolution never fails.  A language key outside the
    catalog resolves to the configuration of the default language,
    ["italian"]; a dialect key that is empty or not a dialect of the
    resolved language resolves to the first dialect that language
    declares; known keys resolve to their own entries.  The result is
    always a persona of the resolved language. *)
Theorem persona_resolution_total (language dialect : string) :
  ∃ lang_config dialect' dialect_config,
    resolve_persona language dialect
      = Ok (lang_config, dialect', dialect_config)
    ∧ PyDict.lookup dialect' (Lang.dialects lang_config) = Some dialect_config
    ∧ (PyDict.lookup language SUPPORTED_LANGUAGES = None →
       PyDict.lookup "italian" SUPPORTED_LANGUAGES = Some lang_config)
    ∧ (∀ l, PyDict.lookup language SUPPORTED_LANGUAGES = Some l →
            lang_config = l)
    ∧ (dialect = "" ∨ dialect ∉ PyDict.keys (Lang.dialects lang_config) →
       head (Lang.dialects lang_config) = Some (dialect', dialect_config))
    ∧ (dialect ≠ "" → dialect ∈ PyDict.keys (Lang.dialects lang_config) →
       dialect' = dialect).
Proof.
  destruct (lang_config_of_total language) as (lc & Hlc & Hne & Hdef & Hown).
  destruct (resolve_persona_with language dialect lc Hlc Hne)
    as (d & dc & Hres & Hvalid & Hfirst & Hkept).
  exists lc, d, dc. repeat split; assumption.
Qed.

(** ** The event stream *)

(** [converse] always builds its generator: the only step that could
    raise is the persona resolution. *)
Lemma converse_captured_total (env : Env) (request : Converse.t) :
  ∃ c,
    converse_captured env request = Ok c
    ∧ audio_content c = Converse.audio request
    ∧ language c = Converse.language request
    ∧ conversation_history c = parse_history env (Converse.history request)
    ∧ resolve_persona (Converse.language request) (Converse.dialect request)
      = Ok (lang_config c, dialect c, dialect_config c).
Proof.
  destruct (lang_config_of_total (Converse.language request))
    as (lc & Hlc & Hne & _).
  destruct (resolve_persona_with _ (Converse.dialect request) lc Hlc Hne)
    as (d & dc & Hr & _).
  unfold converse_captured. rewrite Hr. cbn [exc_bind].
  eexists. split; [reflexivity|]. done.
Qed.

Lemma converse_events (env : Env) (request : Converse.t) (c : Captured) :
  converse_captured env request = Ok c →
  converse env request = Ok (generate_events env c).
Proof. intros H. unfold converse. rewrite H. reflexivity. Qed.

(** Splits a literal list of events into its last event and the events
    before it, and checks which of them are terminal. *)
Ltac split_last :=
  lazymatch goal with
  | |- ∃ pre last, ?l = pre ++ [last] ∧ _ =>
      exists (removelast l), (List.last l (Event.error EmptyString));
      cbn [removelast List.last];
      split; [reflexivity | split; [reflexivity | repeat constructor]]
  end.

(** Opens the generator up to its binds. *)
Ltac open_generator :=
  unfold generate_events, generate_events_body, gen_bind, yield, call.

Lemma generate_events_terminal (env : Env) (c : Captured) :
  ∃ pre last,
    generate_events env c = pre ++ [last]
    ∧ Event.is_terminal last = true
    ∧ Forall (fun e => Event.is_terminal e = false) pre.
Proof.
  open_generator.
  destruct (length (audio_content c) <? 1000)%nat;
    [cbn [app]; split_last|].
  destruct (transcribe_audio env (audio_content c) (language c)) as [t e].
  destruct (if_error e); [cbn [app]; split_last|].
  destruct (negb (PyStr.truthy t)); [cbn [app]; split_last|].
  destruct (analyze_with_gemini env t (language c) (dialect c)
              (conversation_history c)).1 as [[r e']|ex];
    [|cbn [app]; split_last].
  destruct (if_error e'); [cbn [app]; split_last|].
  destruct r as [fb|]; [|cbn [app]; split_last].
  destruct (translate_text env (response fb) (language c) "en") as [tr te].
  destruct (synthesize_speech env (response fb) (language c) (dialect c))
    as [a ae].
  cbn [app]. split_last.
Qed.

(** C1. Every request to [/converse] gets a stream that ends with a
    terminal event ([error] or [complete]) and has no terminal event
    before it: at most one terminal event is emitted, and nothing is
    emitted after it. *)
Theorem one_terminal_event_and_it_is_last
    (env : Env) (request : Converse.t) :
  ∃ pre last,
    converse env request = Ok (pre ++ [last])
    ∧ Event.is_terminal last = true
    ∧ Forall (fun e => Event.is_terminal e = false) pre.
Proof.
  destruct (converse_captured_total env request) as (c & Hc & _).
  destruct (generate_events_terminal env c) as (pre & last & Hev & Hlast & Hpre).
  exists pre, last. rewrite (converse_events env request c Hc), Hev. done.
Qed.

(** The stream of a recording below the threshold. *)
Lemma generate_events_short (env : Env) (c : Captured) :
  length (audio_content c) < 1000 →
  generate_events env c =
    [ Event.progress "receiving"
        ("🎤 " +:+ Dialect.name (dialect_config c) +:+ " is listening...") 10;
      Event.error "Audio too short. Please speak for at least 1 second." ].
Proof.
  intros Hshort. open_generator.
  apply Nat.ltb_lt in Hshort. rewrite Hshort. reflexivity.
Qed.

(** The stream of a run that gets past transcription and analysis: the
    ten events, whatever translation and synthesis do. *)
Lemma generate_events_complete (env : Env) (c : Captured) (t : string)
    (e e' : option string) (fb : Feedback) :
  1000 ≤ length (audio_content c) →
  transcribe_audio env (audio_content c) (language c) = (t, e) →
  if_error e = None →
  t ≠ "" →
  (analyze_with_gemini env t (language c) (dialect c)
     (conversation_history c)).1 = Ok (Some fb, e') →
  if_error e' = None →
  ∃ english audio_base64,
    english =
      match if_error (translate_text env (response fb) (language c) "en").2 with
      | Some _ => "(Translation unavailable)"
      | None => (translate_text env (response fb) (language c) "en").1
      end
    ∧ audio_base64 =
      match if_error (synthesize_speech env (response fb) (language c)
                        (dialect c)).2 with
      | Some _ => ""
      | None => (synthesize_speech env (response fb) (language c)
                   (dialect c)).1
      end
    ∧ generate_events env c =
      [ Event.progress "receiving"
          ("🎤 " +:+ Dialect.name (dialect_config c) +:+ " is listening...") 10;
        Event.progress "transcribing"
          ("📝 Understanding your " +:+ Lang.name (lang_config c) +:+ "...") 25;
        Event.transcript t;
        Event.progress "analyzing"
          ("🤔 " +:+ Dialect.name (dialect_config c) +:+ " is thinking...") 45;
        Event.analysis (reaction fb) (correction fb) (encouragement fb)
          (cultural_note fb);
        Event.progress "translating" "🌐 Creating subtitles..." 65;
        Event.translation (response fb) english;
        Event.progress "synthesizing"
          ("🗣️ " +:+ Dialect.name (dialect_config c) +:+
           " is preparing to speak...") 85;
        Event.progress "complete" "✅ Ready!" 100;
        Event.complete
          {| Complete.transcript := t;
             Complete.reaction := reaction fb;
             Complete.correction := correction fb;
             Complete.encouragement := encouragement fb;
             Complete.cultural_note := cultural_note fb;
             Complete.response_native := response fb;
             Complete.response_english := english;
             Complete.audio_base64 := audio_base64;
             Complete.tutor_name := Dialect.name (dialect_config c);
             Complete.tutor_region := Dialect.region (dialect_config c);
             Complete.language := language c;
             Complete.dialect := dialect c |} ].
Proof.
  intros Hlen Ht He Hne Ha He'.
  do 2 eexists. split; [reflexivity|]. split; [reflexivity|].
  open_generator.
  assert ((length (audio_content c) <? 1000)%nat = false) as ->
    by (apply Nat.ltb_ge; lia).
  rewrite Ht, He.
  assert (negb (PyStr.truthy t) = false) as -> by (by destruct t).
  rewrite Ha, He'.
  destruct (translate_text env (response fb) (language c) "en") as [tr te].
  destruct (synthesize_speech env (response fb) (language c) (dialect c))
    as [a ae].
  reflexivity.
Qed.

(** C2, as the code has it.  A recording below the threshold gives the
    [progress(receiving)] event and then exactly one [error] event, and
    nothing else. *)
Theorem short_audio_events (env : Env) (request : Converse.t) :
  length (Converse.audio request) < 1000 →
  ∃ tutor,
    converse env request =
      Ok [ Event.progress "receiving" ("🎤 " +:+ tutor +:+ " is listening...") 10;
           Event.error "Audio too short. Please speak for at least 1 second." ].
Proof.
  intros Hshort.
  destruct (converse_captured_total env request) as (c & Hc & Haudio & _).
  exists (Dialect.name (dialect_config c)).
  rewrite (converse_events env request c Hc).
  rewrite generate_events_short; [reflexivity|]. by rewrite Haudio.
Qed.

Lemma short_audio_events_witness :
  ∃ tutor,
    converse Scenario.env Scenario.short_request =
      Ok [ Event.progress "receiving" ("🎤 " +:+ tutor +:+ " is listening...") 10;
           Event.error "Audio too short. Please speak for at least 1 second." ].
Proof.
  apply (short_audio_events Scenario.env Scenario.short_request).
  vm_compute. lia.
Defined.

(** C2 as stated fails: the stream of a recording of 12 bytes is not a
    single [error] event, since [progress(receiving)] comes first. *)
Lemma short_audio_is_not_error_only :
  length (Converse.audio Scenario.short_request) < 1000
  ∧ converse Scenario.env Scenario.short_request =
      Ok [ Event.progress "receiving" "🎤 Marco is listening..." 10;
           Event.error "Audio too short. Please speak for at least 1 second." ]
  ∧ ¬ ∃ message,
        converse Scenario.env Scenario.short_request = Ok [Event.error message].
Proof.
  split; [vm_compute; lia|].
  split; [vm_compute; reflexivity|].
  intros [message H]. vm_compute in H. discriminate H.
Qed.

(** C3. On a fully successful run (the recording is long enough,
    transcription returns a non-empty text, no language mismatch is
    found, generation, translation and synthesis all succeed) the stream
    is, in this order: progress(receiving), progress(transcribing),
    transcript, progress(analyzing), analysis, progress(translating),
    translation, progress(synthesizing), progress(complete), complete. *)
Theorem successful_run_event_order (env : Env) (request : Converse.t)
    (c : Captured) (t : string) (fb : Feedback) (english audio : string) :
  converse_captured env request = Ok c →
  1000 ≤ length (Converse.audio request) →
  transcribe_audio env (audio_content c) (language c) = (t, None) →
  t ≠ "" →
  (detect_language_mismatch env t (language c)).1.1 = false →
  (gemini_feedback env t (language c) (dialect c)
     (conversation_history c)).1 = Ok fb →
  translate_text env (response fb) (language c) "en" = (english, None) →
  synthesize_speech env (response fb) (language c) (dialect c)
    = (audio, None) →
  ∃ events,
    converse env request = Ok events
    ∧ map Event.label events =
        [ "progress(receiving)"; "progress(transcribing)"; "transcript";
          "progress(analyzing)"; "analysis"; "progress(translating)";
          "translation"; "progress(synthesizing)"; "progress(complete)";
          "complete" ]
    ∧ last events =
        Some (Event.complete
                {| Complete.transcript := t;
                   Complete.reaction := reaction fb;
                   Complete.correction := correction fb;
                   Complete.encouragement := encouragement fb;
                   Complete.cultural_note := cultural_note fb;
                   Complete.response_native := response fb;
                   Complete.response_english := english;
                   Complete.audio_base64 := audio;
                   Complete.tutor_name := Dialect.name (dialect_config c);
                   Complete.tutor_region := Dialect.region (dialect_config c);
                   Complete.language := Converse.language request;
                   Complete.dialect := dialect c |}).
Proof.
  intros Hc Hlen Ht Hne Hmatch Hgen Htr Hsy.
  destruct (converse_captured_total env request)
    as (c' & Hc' & Haudio & Hlang & _ & Hres).
  rewrite Hc in Hc'. injection Hc' as <-.
  assert (Ha : (analyze_with_gemini env t (language c) (dialect c)
                  (conversation_history c)).1 = Ok (Some fb, None)).
  { unfold analyze_with_gemini.
    destruct (lang_config_of_total (language c)) as (lc & Hlc & Hd & _).
    destruct (dialect_config_of_total lc (dialect c) Hd) as [dc Hdc].
    rewrite Hlc. cbn [exc_bind]. rewrite Hdc. cbn [exc_bind].
    destruct (detect_language_mismatch env t (language c)) as [[w m] d].
    simpl in Hmatch. subst w.
    destruct (gemini_feedback env t (language c) (dialect c)
                (conversation_history c)) as [attempt calls].
    simpl in Hgen. subst attempt. reflexivity. }
  destruct (generate_events_complete env c t None None fb)
    as (en & au & Hen & Hau & Hev); try done.
  { by rewrite Haudio. }
  rewrite Htr in Hen. rewrite Hsy in Hau. simpl in Hen, Hau. subst en au.
  exists (generate_events env c).
  split; [by apply converse_events|].
  rewrite Hev, <- Hlang. split; reflexivity.
Qed.

Lemma successful_run_event_order_witness :
  ∃ events,
    converse Scenario.env Scenario.request = Ok events
    ∧ map Event.label events =
        [ "progress(receiving)"; "progress(transcribing)"; "transcript";
          "progress(analyzing)"; "analysis"; "progress(translating)";
          "translation"; "progress(synthesizing)"; "progress(complete)";
          "complete" ]
    ∧ last events =
        Some (Event.complete
                {| Complete.transcript := "Ciao, come stai?";
                   Complete.reaction := JStr "Bene!";
                   Complete.correction := JStr "Perfect!";
                   Complete.encouragement := JStr "You're getting it!";
                   Complete.cultural_note := JStr "";
                   Complete.response_native := JStr "Sto bene, grazie! E tu?";
                   Complete.response_english := "I'm fine, thanks! And you?";
                   Complete.audio_base64 := "SUQz";
                   Complete.tutor_name := "Marco";
                   Complete.tutor_region := "Rome";
                   Complete.language := "italian";
                   Complete.dialect := "roman" |}).
Proof.
  apply (successful_run_event_order Scenario.env Scenario.request
           Scenario.captured "Ciao, come stai?" Scenario.feedback
           "I'm fine, thanks! And you?" "SUQz").
  - vm_compute. reflexivity.
  - vm_compute. lia.
  - vm_compute. reflexivity.
  - discriminate.
  - vm_compute. reflexivity.
  - vm_compute. reflexivity.
  - vm_compute. reflexivity.
  - vm_compute. reflexivity.
Defined.

(** [translate_text] turns a raised call into an error string, which is
    never empty. *)
Lemma translate_text_failure (env : Env) (text : json)
    (source_lang : string) (lc : Lang.t) (e : exn) :
  lang_config_of source_lang = Ok lc →
  translate env text (Lang.translate_code lc) "en" = Raise e →
  translate_text env text source_lang "en"
    = ("", Some ("Translation failed: " +:+ msg e)).
Proof.
  intros Hlc Hraise. unfold translate_text.
  rewrite Hlc. cbn [exc_bind]. rewrite Hraise. reflexivity.
Qed.

(** C8. When the translation call fails in a run that has reached the
    translation stage, the [translation] event and the [complete] event
    both carry the placeholder ["(Translation unavailable)"] as their
    English text, the stream still ends with [complete], and it holds no
    [error] event. *)
Theorem translation_failure_placeholder (env : Env) (c : Captured)
    (t : string) (fb : Feedback) (lc : Lang.t) (e : exn) :
  1000 ≤ length (audio_content c) →
  transcribe_audio env (audio_content c) (language c) = (t, None) →
  t ≠ "" →
  (analyze_with_gemini env t (language c) (dialect c)
     (conversation_history c)).1 = Ok (Some fb, None) →
  lang_config_of (language c) = Ok lc →
  translate env (response fb) (Lang.translate_code lc) "en" = Raise e →
  ∃ before between data,
    generate_events env c =
      before
      ++ [Event.translation (response fb) "(Translation unavailable)"]
      ++ between ++ [Event.complete data]
    ∧ Complete.response_english data = "(Translation unavailable)"
    ∧ Forall (fun ev => Event.is_error ev = false) (generate_events env c).
Proof.
  intros Hlen Ht Hne Ha Hlc Hraise.
  destruct (generate_events_complete env c t None None fb)
    as (en & au & Hen & Hau & Hev); try done.
  rewrite (translate_text_failure env _ _ lc e Hlc Hraise) in Hen.
  simpl in Hen. subst en.
  rewrite Hev.
  eexists [_; _; _; _; _; _], [_; _], _.
  split; [reflexivity|]. split; [reflexivity|].
  repeat constructor.
Qed.

Lemma translation_failure_placeholder_witness :
  ∃ before between data,
    generate_events Scenario.env_translator_down Scenario.captured =
      before
      ++ [Event.translation (JStr "Sto bene, grazie! E tu?")
            "(Translation unavailable)"]
      ++ between ++ [Event.complete data]
    ∧ Complete.response_english data = "(Translation unavailable)"
    ∧ Forall (fun ev => Event.is_error ev = false)
        (generate_events Scenario.env_translator_down Scenario.captured).
Proof.
  apply (translation_failure_placeholder Scenario.env_translator_down
           Scenario.captured "Ciao, come stai?" Scenario.feedback italian
           (Exn Exception "503 Service Unavailable")).
  - vm_compute. lia.
  - vm_compute. reflexivity.
  - discriminate.
  - vm_compute. reflexivity.
  - vm_compute. reflexivity.
  - vm_compute. reflexivity.
Defined.

(** C10. A [history] parameter that [json.loads] rejects does not
    reject the request: the history becomes the empty list, the stream
    is the one of the generator run on that empty history, and the
    prompt gets no conversation context. *)
Theorem invalid_history_is_empty (env : Env) (request : Converse.t) :
  json_loads env (Converse.history request) = None →
  ∃ c,
    converse_captured env request = Ok c
    ∧ conversation_history c = JArr []
    ∧ converse env request = Ok (generate_events env c)
    ∧ history_context (conversation_history c) = Ok [].
Proof.
  intros Hbad.
  destruct (converse_captured_total env request) as (c & Hc & _ & _ & Hh & _).
  exists c. split; [done|].
  unfold parse_history in Hh. rewrite Hbad in Hh.
  split; [done|]. split; [by apply converse_events|].
  rewrite Hh. reflexivity.
Qed.

Lemma invalid_history_is_empty_witness :
  ∃ c,
    converse_captured Scenario.env Scenario.request_bad_history = Ok c
    ∧ conversation_history c = JArr []
    ∧ converse Scenario.env Scenario.request_bad_history
      = Ok (generate_events Scenario.env c)
    ∧ history_context (conversation_history c) = Ok [].
Proof.
  apply (invalid_history_is_empty Scenario.env Scenario.request_bad_history).
  vm_compute. reflexivity.
Defined.

(** ** The feedback generator *)

(** When the detector is consulted and names a language whose base code
    is not the target's, the mismatch is reported with the message that
    names both languages. *)
Lemma detect_language_mismatch_found (env : Env)
    (transcript target_language : string) (detection : detection)
    (lc : Lang.t) (detected detected_base target_base : string) :
  2 ≤ PyStr.len (PyStr.strip transcript) →
  detect_language env transcript = Ok detection →
  detected_lang_of detection = detected →
  detected ≠ "" →
  detected ≠ "und" →
  lang_config_of target_language = Ok lc →
  base_code detected = Ok detected_base →
  base_code (PyStr.lower (Lang.translate_code lc)) = Ok target_base →
  detected_base ≠ target_base →
  detect_language_mismatch env transcript target_language
    = (true,
       wrong_language_message (detected_name_of detected) (Lang.name lc),
       detected).
Proof.
  intros Hlen Hdet Hlang Hne Hund Hlc Hdb Htb Hdiff.
  unfold detect_language_mismatch.
  assert (negb (PyStr.truthy transcript)
          || (PyStr.len (PyStr.strip transcript) <? 2)%nat = false) as ->.
  { apply orb_false_iff. split.
    - destruct transcript; [vm_compute in Hlen; lia | reflexivity].
    - apply Nat.ltb_ge. lia. }
  rewrite Hdet. cbn [exc_bind]. rewrite Hlang, Hlc. cbn [exc_bind].
  assert (negb (PyStr.truthy detected) || String.eqb detected "und" = false)
    as ->.
  { apply orb_false_iff. split.
    - destruct detected; [done | reflexivity].
    - by apply String.eqb_neq. }
  rewrite Hdb, Htb. cbn [exc_bind].
  apply String.eqb_neq in Hdiff. rewrite Hdiff. reflexivity.
Qed.

(** What line 431 calls the detected language: each name of the table is
    a proper one, and only the codes [und] and the empty one are called
    [Unknown]. *)
Lemma language_names_proper (code name : string) :
  PyDict.lookup code language_names = Some name →
  name ≠ "" ∧ (name = "Unknown" → code = "und" ∨ code = "").
Proof.
  intros Hlookup.
  assert (Hin : In (code, name) language_names).
  { induction language_names as [|[k v] d IH]; [discriminate|].
    simpl in Hlookup. destruct (String.eqb_spec code k) as [->|_].
    - injection Hlookup as ->. by left.
    - right. by apply IH. }
  assert (forallb
            (fun e : string * string =>
               negb (String.eqb e.2 "")
               && (negb (String.eqb e.2 "Unknown")
                   || String.eqb e.1 "und" || String.eqb e.1 ""))
            language_names = true) as Hall by (vm_compute; reflexivity).
  rewrite forallb_forall in Hall. apply Hall in Hin. cbn [fst snd] in Hin.
  apply andb_true_iff in Hin as [Hne Hunknown]. split.
  - by apply String.eqb_neq, negb_true_iff.
  - intros ->. cbn in Hunknown.
    apply orb_true_iff in Hunknown as [Hund|Hempty].
    + left. by apply String.eqb_eq.
    + right. by apply String.eqb_eq.
Qed.

Lemma upper_ascii_is_no_small_n (c : ascii) : PyStr.upper_ascii c ≠ "n"%char.
Proof.
  destruct c as [[] [] [] [] [] [] [] []]; vm_compute; discriminate.
Qed.

(** An upper-cased code is neither empty nor the word [Unknown]. *)
Lemma upper_proper (code : string) :
  code ≠ "" → PyStr.upper code ≠ "" ∧ PyStr.upper code ≠ "Unknown".
Proof.
  intros Hne. destruct code as [|c [|c' code]]; [done| |].
  - split; intros [=].
  - split; [intros [=]|]. cbn [PyStr.upper PyStr.map_chars].
    intros [= _ Hn _]. by apply upper_ascii_is_no_small_n in Hn.
Qed.

(** The name given to a code that was detected: the name of the table,
    else the code in upper case; never empty and never [Unknown]. *)
Lemma detected_name_of_proper (detected : string) :
  detected ≠ "" →
  detected ≠ "und" →
  detected_name_of detected
    = match PyDict.lookup detected language_names with
      | Some name => name
      | None => PyStr.upper detected
      end
  ∧ detected_name_of detected ≠ ""
  ∧ detected_name_of detected ≠ "Unknown".
Proof.
  intros Hne Hund. unfold detected_name_of, PyDict.get.
  assert (PyStr.truthy detected = true) as -> by (by destruct detected).
  split; [reflexivity|].
  destruct (PyDict.lookup detected language_names) as [name|] eqn:Hlookup.
  - destruct (language_names_proper _ _ Hlookup) as [Hname Hunknown].
    split; [exact Hname|]. intros Heq. by destruct (Hunknown Heq).
  - by apply upper_proper.
Qed.

Lemma catalog_names_nonempty :
  Forall (fun l => Lang.name l ≠ "") (PyDict.values SUPPORTED_LANGUAGES).
Proof. unfold SUPPORTED_LANGUAGES. simpl. repeat constructor; discriminate. Qed.

(** The language entry that a lookup returns has a name. *)
Lemma lang_config_of_named (language : string) (lc : Lang.t) :
  lang_config_of language = Ok lc → Lang.name lc ≠ "".
Proof.
  intros Hlc.
  destruct (lang_config_of_total language) as (lc' & Hlc' & _ & Hnone & Hsome).
  rewrite Hlc in Hlc'. injection Hlc' as <-.
  pose proof catalog_names_nonempty as Hall. rewrite Forall_forall in Hall.
  apply Hall.
  destruct (PyDict.lookup language SUPPORTED_LANGUAGES) as [l|] eqn:Hlookup.
  - rewrite (Hsome l eq_refl). eapply lookup_elem_values, Hlookup.
  - eapply lookup_elem_values, Hnone, eq_refl.
Qed.

(** C4. When the detector names a language whose base code differs from
    the base code of the target language, [analyze_with_gemini] returns
    at once, without an error and without calling a generative model,
    the canned feedback whose [correction] is the mismatch message.  The
    message reads "You spoke in D, but we're practicing T", where T is
    the name of the target language in the catalog and D is the name of
    the detected code in the table of line 431, or the code in upper
    case when the table lacks it; neither name is empty, and D is never
    "Unknown". *)
Theorem mismatch_short_circuits (env : Env)
    (transcript language dialect : string) (history : json)
    (detection : detection) (lc : Lang.t)
    (detected detected_base target_base : string) :
  2 ≤ PyStr.len (PyStr.strip transcript) →
  detect_language env transcript = Ok detection →
  detected_lang_of detection = detected →
  detected ≠ "" →
  detected ≠ "und" →
  lang_config_of language = Ok lc →
  base_code detected = Ok detected_base →
  base_code (PyStr.lower (Lang.translate_code lc)) = Ok target_base →
  detected_base ≠ target_base →
  ∃ dc detected_name,
    dialect_config_of lc dialect = Ok dc
    ∧ detected_name
      = match PyDict.lookup detected language_names with
        | Some name => name
        | None => PyStr.upper detected
        end
    ∧ detected_name ≠ ""
    ∧ detected_name ≠ "Unknown"
    ∧ Lang.name lc ≠ ""
    ∧ analyze_with_gemini env transcript language dialect history
      = (Ok (Some {| reaction := JStr "Whoa, stop right there! 🛑";
                     correction :=
                       JStr ("🛑 Wrong language! You spoke in "
                             +:+ detected_name
                             +:+ ", but we're practicing " +:+ Lang.name lc
                             +:+ ". Try again in " +:+ Lang.name lc
                             +:+ " - even if it's broken or just a few words!");
                     response := JStr (Dialect.greeting dc);
                     cultural_note := JStr "";
                     encouragement :=
                       JStr ("Come on, give " +:+ Lang.name lc
                             +:+ " a try! Even one word counts.") |},
             None),
         []).
Proof.
  intros Hlen Hdet Hlang Hne Hund Hlc Hdb Htb Hdiff.
  destruct (lang_config_of_total language) as (lc' & Hlc' & Hd & _).
  rewrite Hlc in Hlc'. injection Hlc' as <-.
  destruct (dialect_config_of_total lc dialect Hd) as [dc Hdc].
  destruct (detected_name_of_proper detected Hne Hund)
    as (Hname & Hnamed & Hknown).
  exists dc, (detected_name_of detected).
  split; [exact Hdc|]. split; [exact Hname|].
  split; [exact Hnamed|]. split; [exact Hknown|].
  split; [by apply (lang_config_of_named language)|].
  unfold analyze_with_gemini.
  rewrite Hlc. cbn [exc_bind]. rewrite Hdc. cbn [exc_bind].
  rewrite (detect_language_mismatch_found env transcript language detection
             lc detected detected_base target_base); try done.
Qed.

Lemma mismatch_short_circuits_witness :
  analyze_with_gemini Scenario.env_wrong_language "Hello, how are you?"
    "italian" "roman" (JArr [])
  = (Ok (Some {| reaction := JStr "Whoa, stop right there! 🛑";
                 correction :=
                   JStr ("🛑 Wrong language! You spoke in English, "
                         +:+ "but we're practicing Italian. "
                         +:+ "Try again in Italian - "
                         +:+ "even if it's broken or just a few words!");
                 response := JStr (Dialect.greeting marco);
                 cultural_note := JStr "";
                 encouragement :=
                   JStr "Come on, give Italian a try! Even one word counts." |},
         None),
     []).
Proof.
  destruct (mismatch_short_circuits Scenario.env_wrong_language
              "Hello, how are you?" "italian" "roman" (JArr [])
              (DetDict (Some "en")) italian "en" "en" "it")
    as (dc & name & Hdc & Hname & _ & _ & _ & Hcall).
  - vm_compute. lia.
  - reflexivity.
  - reflexivity.
  - discriminate.
  - discriminate.
  - vm_compute. reflexivity.
  - reflexivity.
  - reflexivity.
  - discriminate.
  - rewrite Hcall, Hname. vm_compute in Hdc. injection Hdc as <-.
    reflexivity.
Defined.

(** When every model raises, the loop has called them all and found no
    response. *)
Lemma try_models_all_fail (env : Env) (prompt : Prompt)
    (models : list string) :
  (∀ model, model ∈ models →
            ∃ e, generate_content env model prompt = Raise e) →
  try_models env prompt models = (None, models).
Proof.
  induction models as [|m rest IH]; intros Hfail; [reflexivity|].
  destruct (Hfail m) as [e He]; [apply list_elem_of_here|].
  cbn [try_models]. rewrite He, IH; [reflexivity|].
  intros model Hin. apply Hfail, list_elem_of_further, Hin.
Qed.

(** The exception of line 544 is one that the outer handler takes for a
    quota failure: its message holds the word [exhausted]. *)
Lemma exhaustion_message_matches :
  is_quota_exhausted "All models exhausted or unavailable" = true.
Proof. vm_compute. reflexivity. Qed.

Lemma gemini_feedback_exhausted (env : Env)
    (transcript language dialect : string) (history : json)
    (turns : list (json * json)) :
  history_context history = Ok turns →
  (∀ model prompt, model ∈ models_to_try →
                   ∃ e, generate_content env model prompt = Raise e) →
  gemini_feedback env transcript language dialect history
    = (Raise (Exn Exception "All models exhausted or unavailable"),
       models_to_try).
Proof.
  intros Hturns Hfail.
  destruct (lang_config_of_total language) as (lc & Hlc & Hd & _).
  destruct (dialect_config_of_total lc dialect Hd) as [dc Hdc].
  unfold gemini_feedback, get_tutor_prompt.
  rewrite Hlc. cbn [exc_bind]. rewrite Hdc. cbn [exc_bind].
  rewrite Hturns. cbn [exc_bind].
  rewrite try_models_all_fail; [reflexivity|].
  intros model Hin. apply Hfail, Hin.
Qed.

(** A hard error of [analyze_with_gemini] is always the echo of an
    exception of its [try] block that is not a JSON decoding error and
    whose message matches none of the four patterns. *)
Lemma hard_error_inversion (env : Env) (transcript language dialect : string)
    (history : json) (r : option Feedback) (err : string) :
  (analyze_with_gemini env transcript language dialect history).1
    = Ok (r, Some err) →
  r = None
  ∧ ∃ e,
      (gemini_feedback env transcript language dialect history).1 = Raise e
      ∧ cls e ≠ JSONDecodeError
      ∧ is_quota_exhausted (msg e) = false
      ∧ msg e ≠ "All models exhausted or unavailable"
      ∧ err = "AI analysis failed: " +:+ msg e.
Proof.
  unfold analyze_with_gemini.
  destruct (lang_config_of_total language) as (lc & Hlc & Hd & _).
  destruct (dialect_config_of_total lc dialect Hd) as [dc Hdc].
  rewrite Hlc. cbn [exc_bind]. rewrite Hdc. cbn [exc_bind].
  destruct (detect_language_mismatch env transcript language) as [[w m] d].
  destruct w; [discriminate|].
  destruct (gemini_feedback env transcript language dialect history)
    as [[fb|e] calls]; [discriminate|].
  cbn [fst].
  assert (Hmsg : is_quota_exhausted (msg e) = false →
                 msg e ≠ "All models exhausted or unavailable").
  { intros Hq Heq. rewrite Heq, exhaustion_message_matches in Hq.
    discriminate. }
  destruct (cls e) eqn:Hcls; try discriminate;
    destruct (is_quota_exhausted (msg e)) eqn:Hq; try discriminate;
    intros [= <- <-]; (split; [reflexivity|]);
    exists e; rewrite Hcls; repeat split; auto; discriminate.
Qed.

(** C5, as the code has it.  When no mismatch is found and every
    candidate model raises, whatever its error, [analyze_with_gemini]
    returns the canned encouragement and no error, after calling every
    model, and the stream goes on to [complete].  A hard error is only
    ever surfaced for an exception of the [try] block that is not the
    exhaustion of the models: its message matches none of the patterns
    [429], [quota], [resource], [exhausted]. *)
Theorem exhausted_models_fall_back (env : Env) (c : Captured) (t : string)
    (turns : list (json * json)) :
  1000 ≤ length (audio_content c) →
  transcribe_audio env (audio_content c) (language c) = (t, None) →
  t ≠ "" →
  (detect_language_mismatch env t (language c)).1.1 = false →
  history_context (conversation_history c) = Ok turns →
  (∀ model prompt, model ∈ models_to_try →
                   ∃ e, generate_content env model prompt = Raise e) →
  (∃ lc dialect_info,
     lang_config_of (language c) = Ok lc
     ∧ dialect_config_of lc (dialect c) = Ok dialect_info
     ∧ analyze_with_gemini env t (language c) (dialect c)
         (conversation_history c)
       = (Ok (Some {| reaction := JStr "I heard you!";
                      correction := JStr "Let's work on that together.";
                      response := JStr (Dialect.greeting dialect_info);
                      cultural_note := JStr "";
                      encouragement := JStr "Keep practicing!" |},
              None),
          models_to_try))
  ∧ map Event.label (generate_events env c) =
      [ "progress(receiving)"; "progress(transcribing)"; "transcript";
        "progress(analyzing)"; "analysis"; "progress(translating)";
        "translation"; "progress(synthesizing)"; "progress(complete)";
        "complete" ]
  ∧ (∀ env' transcript language dialect history r err,
       (analyze_with_gemini env' transcript language dialect history).1
         = Ok (r, Some err) →
       r = None
       ∧ ∃ e,
           (gemini_feedback env' transcript language dialect history).1
             = Raise e
           ∧ cls e ≠ JSONDecodeError
           ∧ is_quota_exhausted (msg e) = false
           ∧ msg e ≠ "All models exhausted or unavailable"
           ∧ err = "AI analysis failed: " +:+ msg e).
Proof.
  intros Hlen Ht Hne Hmatch Hturns Hfail.
  destruct (lang_config_of_total (language c)) as (lc & Hlc & Hd & _).
  destruct (dialect_config_of_total lc (dialect c) Hd) as [dc Hdc].
  assert (Ha : analyze_with_gemini env t (language c) (dialect c)
                 (conversation_history c)
               = (Ok (Some {| reaction := JStr "I heard you!";
                              correction := JStr "Let's work on that together.";
                              response := JStr (Dialect.greeting dc);
                              cultural_note := JStr "";
                              encouragement := JStr "Keep practicing!" |},
                      None),
                  models_to_try)).
  { unfold analyze_with_gemini.
    rewrite Hlc. cbn [exc_bind]. rewrite Hdc. cbn [exc_bind].
    destruct (detect_language_mismatch env t (language c)) as [[w m] d].
    simpl in Hmatch. subst w.
    rewrite (gemini_feedback_exhausted env t _ _ _ turns Hturns Hfail).
    reflexivity. }
  split; [by exists lc, dc|]. split.
  - destruct (generate_events_complete env c t None None
                {| reaction := JStr "I heard you!";
                   correction := JStr "Let's work on that together.";
                   response := JStr (Dialect.greeting dc);
                   cultural_note := JStr "";
                   encouragement := JStr "Keep practicing!" |})
      as (en & au & _ & _ & ->); try done.
    by rewrite Ha.
  - intros env' transcript language' dialect' history r err.
    apply hard_error_inversion.
Qed.

Lemma exhausted_models_fall_back_witness :
  (∃ lc dialect_info,
     lang_config_of "italian" = Ok lc
     ∧ dialect_config_of lc "roman" = Ok dialect_info
     ∧ analyze_with_gemini Scenario.env_out_of_quota "Ciao, come stai?"
         "italian" "roman" (JArr [])
       = (Ok (Some {| reaction := JStr "I heard you!";
                      correction := JStr "Let's work on that together.";
                      response := JStr (Dialect.greeting dialect_info);
                      cultural_note := JStr "";
                      encouragement := JStr "Keep practicing!" |},
              None),
          models_to_try))
  ∧ map Event.label
      (generate_events Scenario.env_out_of_quota Scenario.captured) =
      [ "progress(receiving)"; "progress(transcribing)"; "transcript";
        "progress(analyzing)"; "analysis"; "progress(translating)";
        "translation"; "progress(synthesizing)"; "progress(complete)";
        "complete" ]
  ∧ (∀ env' transcript language dialect history r err,
       (analyze_with_gemini env' transcript language dialect history).1
         = Ok (r, Some err) →
       r = None
       ∧ ∃ e,
           (gemini_feedback env' transcript language dialect history).1
             = Raise e
           ∧ cls e ≠ JSONDecodeError
           ∧ is_quota_exhausted (msg e) = false
           ∧ msg e ≠ "All models exhausted or unavailable"
           ∧ err = "AI analysis failed: " +:+ msg e).
Proof.
  apply (exhausted_models_fall_back Scenario.env_out_of_quota
           Scenario.captured "Ciao, come stai?" []).
  - vm_compute. lia.
  - vm_compute. reflexivity.
  - discriminate.
  - vm_compute. reflexivity.
  - reflexivity.
  - intros model prompt _. eexists. reflexivity.
Defined.

(** C5 as stated fails on both sides.  In a session where every model
    breaks with a 500 error, which matches no quota pattern, the result
    is still the canned encouragement and no hard error; and in a session
    where the first model answers with a JSON list, a hard error is
    surfaced although only one model was called and it did not fail. *)
Lemma unmatched_total_failure_is_not_a_hard_error :
  (∀ model prompt, model ∈ models_to_try →
     ∃ e, generate_content Scenario.env_internal_errors model prompt = Raise e
          ∧ is_quota_error (msg e) = false
          ∧ is_quota_exhausted (msg e) = false)
  ∧ analyze_with_gemini Scenario.env_internal_errors "Ciao, come stai?"
      "italian" "roman" (JArr [])
    = (Ok (Some {| reaction := JStr "I heard you!";
                   correction := JStr "Let's work on that together.";
                   response := JStr (Dialect.greeting marco);
                   cultural_note := JStr "";
                   encouragement := JStr "Keep practicing!" |},
           None),
       models_to_try)
  ∧ (¬ ∃ r err,
         (analyze_with_gemini Scenario.env_internal_errors "Ciao, come stai?"
            "italian" "roman" (JArr [])).1 = Ok (r, Some err))
  ∧ analyze_with_gemini Scenario.env_answers_list "Ciao, come stai?"
      "italian" "roman" (JArr [])
    = (Ok (None,
           Some "AI analysis failed: 'list' object has no attribute 'get'"),
       ["gemini-2.0-flash-lite"]).
Proof.
  split.
  { intros model prompt _. eexists. split; [reflexivity|].
    split; vm_compute; reflexivity. }
  split; [vm_compute; reflexivity|].
  split; [|vm_compute; reflexivity].
  intros (r & err & H). vm_compute in H. discriminate H.
Qed.

(** ** The rate limiter *)

Lemma fresh_all (self : RateLimiter.t) (now : Q) (stamps : list Q) :
  (∀ r, r ∈ stamps → (now - r < RateLimiter.window self)%Q) →
  RateLimiter.fresh self now stamps = stamps.
Proof.
  unfold RateLimiter.fresh.
  induction stamps as [|r rest IH]; intros Hall; [reflexivity|].
  rewrite filter_cons. destruct (decide _) as [_|Hno].
  - f_equal. apply IH. intros r' Hin. apply Hall.
    by apply list_elem_of_further.
  - destruct Hno. apply Hall, list_elem_of_here.
Qed.

Lemma fresh_none (self : RateLimiter.t) (now : Q) (stamps : list Q) :
  (∀ r, r ∈ stamps → (RateLimiter.window self <= now - r)%Q) →
  RateLimiter.fresh self now stamps = [].
Proof.
  unfold RateLimiter.fresh.
  induction stamps as [|r rest IH]; intros Hall; [reflexivity|].
  rewrite filter_cons_False.
  - apply IH. intros r' Hin. apply Hall. by apply list_elem_of_further.
  - apply Qle_not_lt, Hall, list_elem_of_here.
Qed.

Lemma py_min_elem (l : list Q) (m : Q) :
  RateLimiter.py_min l = Some m → m ∈ l.
Proof.
  revert m. induction l as [|x l IH]; intros m; simpl; [discriminate|].
  destruct (RateLimiter.py_min l) as [m'|].
  - destruct (Qlt_le_dec m' x); intros [= <-].
    + apply list_elem_of_further. by apply IH.
    + apply list_elem_of_here.
  - intros [= <-]. apply list_elem_of_here.
Qed.

Lemma py_min_is_Some (l : list Q) :
  l ≠ [] → is_Some (RateLimiter.py_min l).
Proof.
  destruct l as [|x l]; [done|]. intros _. simpl.
  destruct (RateLimiter.py_min l); eauto.
Qed.

Lemma stamps_of_insert (requests : gmap string (list Q))
    (client_ip : string) (l : list Q) (max_requests : Z) (window : Q) :
  RateLimiter.stamps_of
    (RateLimiter.mk max_requests window (<[client_ip := l]> requests))
    client_ip = l.
Proof. unfold RateLimiter.stamps_of. simpl. by rewrite lookup_insert_eq. Qed.

(** A check that finds fewer live stamps than the limit admits the
    request and records its time. *)
Lemma is_allowed_admits (self : RateLimiter.t) (now : Q)
    (client_ip : string) (kept : list Q) :
  RateLimiter.fresh self now (RateLimiter.stamps_of self client_ip) = kept →
  (Z.of_nat (length kept) < RateLimiter.max_requests self)%Z →
  ∃ self',
    RateLimiter.is_allowed self now client_ip = Some (self', (true, None))
    ∧ RateLimiter.stamps_of self' client_ip = kept ++ [now]
    ∧ RateLimiter.max_requests self' = RateLimiter.max_requests self
    ∧ RateLimiter.window self' = RateLimiter.window self.
Proof.
  intros Hkept Hroom. unfold RateLimiter.is_allowed. rewrite Hkept.
  destruct (Z.geb_spec (Z.of_nat (length kept))
              (RateLimiter.max_requests self)) as [Hge|Hlt]; [lia|].
  eexists. split; [reflexivity|].
  split; [apply stamps_of_insert|]. done.
Qed.

(** A check that finds the limit reached denies the request and asks
    the client to wait one second more than the whole seconds left to
    the oldest stamp. *)
Lemma is_allowed_denies (self : RateLimiter.t) (now : Q)
    (client_ip : string) (p : list Q) :
  RateLimiter.stamps_of self client_ip = p →
  (∀ r, r ∈ p → (now - r < RateLimiter.window self)%Q) →
  (RateLimiter.max_requests self <= Z.of_nat (length p))%Z →
  p ≠ [] →
  ∃ self' oldest,
    RateLimiter.py_min p = Some oldest
    ∧ (0 < time_to_expiry (RateLimiter.window self) now oldest)%Q
    ∧ RateLimiter.is_allowed self now client_ip
      = Some (self',
              (false,
               Some (Qfloor (time_to_expiry (RateLimiter.window self) now
                               oldest) + 1)%Z)).
Proof.
  intros Hp Hlive Hfull Hne. unfold RateLimiter.is_allowed.
  rewrite Hp, (fresh_all self now p Hlive).
  destruct (Z.geb_spec (Z.of_nat (length p)) (RateLimiter.max_requests self))
    as [Hge|Hlt]; [|lia].
  destruct (py_min_is_Some p Hne) as [oldest Hmin]. rewrite Hmin.
  assert (Hpos : (0 < time_to_expiry (RateLimiter.window self) now oldest)%Q).
  { unfold time_to_expiry. apply py_min_elem, Hlive in Hmin.
    apply Qlt_minus_iff in Hmin. exact Hmin. }
  eexists _, oldest. split; [reflexivity|]. split; [exact Hpos|].
  unfold RateLimiter.py_int, time_to_expiry in *.
  assert (Qle_bool 0 (RateLimiter.window self - (now - oldest)) = true) as ->
    by (apply Qle_bool_iff, Qlt_le_weak, Hpos).
  reflexivity.
Qed.

(** A check of one client leaves the stamps of every other client as
    they were. *)
Lemma is_allowed_other_client (self self' : RateLimiter.t) (now : Q)
    (client_ip other : string) (answer : bool * option Z) :
  client_ip ≠ other →
  RateLimiter.is_allowed self now client_ip = Some (self', answer) →
  RateLimiter.stamps_of self' other = RateLimiter.stamps_of self other.
Proof.
  intros Hne. unfold RateLimiter.is_allowed.
  destruct (_ >=? _)%Z.
  - destruct (RateLimiter.py_min _); [|discriminate].
    intros [= <- _]. unfold RateLimiter.stamps_of. simpl.
    by rewrite lookup_insert_ne.
  - intros [= <- _]. unfold RateLimiter.stamps_of. simpl.
    by rewrite lookup_insert_ne.
Qed.

Lemma is_allowed_run_app (self : RateLimiter.t) (client_ip : string)
    (l1 l2 : list Q) :
  is_allowed_run self client_ip (l1 ++ l2) =
    match is_allowed_run self client_ip l1 with
    | Some (self1, answers1) =>
        match is_allowed_run self1 client_ip l2 with
        | Some (self2, answers2) => Some (self2, answers1 ++ answers2)
        | None => None
        end
    | None => None
    end.
Proof.
  revert self. induction l1 as [|now l1 IH]; intros self; simpl.
  - by destruct (is_allowed_run self client_ip l2) as [[? ?]|].
  - destruct (RateLimiter.is_allowed self now client_ip) as [[self' a]|];
      [|reflexivity].
    rewrite IH.
    destruct (is_allowed_run self' client_ip l1) as [[self1 a1]|];
      [|reflexivity].
    by destruct (is_allowed_run self1 client_ip l2) as [[? ?]|].
Qed.

(** Checks that fall in one window with the stamps already held are all
    admitted while they fit under the limit. *)
Lemma is_allowed_run_admits (client_ip : string) (times : list Q) :
  ∀ (self : RateLimiter.t) (p : list Q),
    RateLimiter.stamps_of self client_ip = p →
    within_window (RateLimiter.window self) (p ++ times) →
    (Z.of_nat (length p + length times) <= RateLimiter.max_requests self)%Z →
    ∃ self',
      is_allowed_run self client_ip times
        = Some (self', replicate (length times) (true, None))
      ∧ RateLimiter.stamps_of self' client_ip = p ++ times
      ∧ RateLimiter.max_requests self' = RateLimiter.max_requests self
      ∧ RateLimiter.window self' = RateLimiter.window self.
Proof.
  induction times as [|now rest IH]; intros self p Hp Hwin Hroom.
  - exists self. rewrite app_nil_r. done.
  - destruct (is_allowed_admits self now client_ip p)
      as (self1 & Hcall & Hp1 & Hmax1 & Hwin1).
    { rewrite Hp. apply fresh_all. intros r Hr.
      apply Hwin; apply elem_of_app;
        [right; apply list_elem_of_here | left; done]. }
    { simpl in Hroom. lia. }
    destruct (IH self1 (p ++ [now]) Hp1) as (self2 & Hrun & Hp2 & Hmax2 & Hwin2).
    { rewrite Hwin1, <- app_assoc. exact Hwin. }
    { rewrite Hmax1, length_app. simpl in *. lia. }
    exists self2. simpl. rewrite Hcall, Hrun.
    split; [reflexivity|]. rewrite Hp2, <- app_assoc.
    split; [reflexivity|]. split; congruence.
Qed.

(** The same from a record whose stamps have all left the window: the
    first check clears them. *)
Lemma is_allowed_run_from_stale (client_ip : string) (times : list Q)
    (self : RateLimiter.t) :
  (∀ r t, r ∈ RateLimiter.stamps_of self client_ip → t ∈ times →
          (RateLimiter.window self <= t - r)%Q) →
  within_window (RateLimiter.window self) times →
  (Z.of_nat (length times) <= RateLimiter.max_requests self)%Z →
  ∃ self',
    is_allowed_run self client_ip times
      = Some (self', replicate (length times) (true, None))
    ∧ (times ≠ [] → RateLimiter.stamps_of self' client_ip = times)
    ∧ RateLimiter.max_requests self' = RateLimiter.max_requests self
    ∧ RateLimiter.window self' = RateLimiter.window self.
Proof.
  intros Hstale Hwin Hroom.
  destruct times as [|now rest]; [by exists self|].
  destruct (is_allowed_admits self now client_ip [])
    as (self1 & Hcall & Hp1 & Hmax1 & Hwin1).
  { apply fresh_none. intros r Hr. apply Hstale; [done|].
    apply list_elem_of_here. }
  { simpl in *. lia. }
  destruct (is_allowed_run_admits client_ip rest self1 [now] Hp1)
    as (self2 & Hrun & Hp2 & Hmax2 & Hwin2).
  { by rewrite Hwin1. }
  { rewrite Hmax1. simpl in *. lia. }
  exists self2. simpl. rewrite Hcall, Hrun.
  split; [reflexivity|]. split; [done|]. split; congruence.
Qed.

Lemma within_window_of_bounds (window lo hi : Q) (times : list Q) :
  forallb (fun t => Qle_bool lo t && Qle_bool t hi) times = true →
  (hi - lo < window)%Q →
  within_window window times.
Proof.
  intros Hall Hspan a b Ha Hb.
  rewrite forallb_forall in Hall.
  apply list_elem_of_In, Hall, andb_true_iff in Ha as [_ Ha].
  apply list_elem_of_In, Hall, andb_true_iff in Hb as [Hb _].
  apply Qle_bool_iff in Ha, Hb. lra.
Qed.

(** C7, as the code has it.  For a client whose stamps on record, if
    any, have all left the window, checks that lie in one 60 second
    window are all admitted while they are at most 20; the 21st check in
    that window is denied, with a [retry_after] that is one more than
    the whole seconds of the time until the oldest stamp leaves the
    window.  That value is strictly positive and is the least integer
    strictly above that time, so it is the time rounded up except when
    the time is a whole number of seconds, where it is one second
    more. *)
Theorem sliding_window_admission (self : RateLimiter.t)
    (client_ip : string) (times : list Q) :
  RateLimiter.max_requests self = RATE_LIMIT_REQUESTS →
  RateLimiter.window self = RATE_LIMIT_WINDOW →
  (∀ r t, r ∈ RateLimiter.stamps_of self client_ip → t ∈ times →
          (RATE_LIMIT_WINDOW <= t - r)%Q) →
  within_window RATE_LIMIT_WINDOW times →
  (length times ≤ 20 →
   ∃ self',
     is_allowed_run self client_ip times
       = Some (self', replicate (length times) (true, None)))
  ∧ (∀ first now,
       times = first ++ [now] →
       length first = 20 →
       ∃ self' oldest retry_after,
         is_allowed_run self client_ip times
           = Some (self',
                   replicate 20 (true, None) ++ [(false, Some retry_after)])
         ∧ RateLimiter.py_min first = Some oldest
         ∧ retry_after
           = (Qfloor (time_to_expiry RATE_LIMIT_WINDOW now oldest) + 1)%Z
         ∧ (0 < retry_after)%Z
         ∧ (time_to_expiry RATE_LIMIT_WINDOW now oldest
            < inject_Z retry_after)%Q
         ∧ (inject_Z retry_after
            <= time_to_expiry RATE_LIMIT_WINDOW now oldest + 1)%Q).
Proof.
  intros Hmax Hwindow Hstale Hwin. split.
  - intros Hlen.
    destruct (is_allowed_run_from_stale client_ip times self)
      as (self' & Hrun & _).
    + by rewrite Hwindow.
    + by rewrite Hwindow.
    + rewrite Hmax. unfold RATE_LIMIT_REQUESTS. lia.
    + by exists self'.
  - intros first now -> Hlen.
    destruct (is_allowed_run_from_stale client_ip first self)
      as (self1 & Hrun & Hp1 & Hmax1 & Hwin1).
    + rewrite Hwindow. intros r t Hr Ht.
      apply Hstale; [done|]. apply elem_of_app. by left.
    + rewrite Hwindow. intros a b Ha Hb.
      apply Hwin; apply elem_of_app; by left.
    + rewrite Hmax. unfold RATE_LIMIT_REQUESTS. lia.
    + assert (Hne : first ≠ []) by (intros ->; discriminate Hlen).
      specialize (Hp1 Hne).
      destruct (is_allowed_denies self1 now client_ip first Hp1)
        as (self2 & oldest & Hmin & Hpos & Hcall).
      * rewrite Hwin1, Hwindow. intros r Hr.
        apply Hwin; apply elem_of_app;
          [right; apply list_elem_of_here | by left].
      * rewrite Hmax1, Hmax. unfold RATE_LIMIT_REQUESTS. lia.
      * exact Hne.
      * rewrite Hwin1, Hwindow in Hpos, Hcall.
        exists self2, oldest,
          (Qfloor (time_to_expiry RATE_LIMIT_WINDOW now oldest) + 1)%Z.
        rewrite is_allowed_run_app, Hrun. cbn [is_allowed_run].
        rewrite Hcall, Hlen.
        split; [reflexivity|]. split; [exact Hmin|].
        split; [reflexivity|].
        set (x := time_to_expiry RATE_LIMIT_WINDOW now oldest) in *.
        pose proof (Qfloor_le x) as Hfloor.
        pose proof (Qlt_floor x) as Hceil.
        assert (0 <= Qfloor x)%Z.
        { change 0%Z with (Qfloor 0). apply Qfloor_resp_le, Qlt_le_weak, Hpos. }
        split; [lia|]. split; [exact Hceil|].
        rewrite inject_Z_plus. change (inject_Z 1) with 1%Q. lra.
Qed.

Lemma sliding_window_admission_witness :
  (length (Scenario.twenty_times ++ [130%Q]) ≤ 20 →
   ∃ self',
     is_allowed_run rate_limiter "10.0.0.1" (Scenario.twenty_times ++ [130%Q])
       = Some (self',
               replicate (length (Scenario.twenty_times ++ [130%Q]))
                 (true, None)))
  ∧ (∀ first now,
       Scenario.twenty_times ++ [130%Q] = first ++ [now] →
       length first = 20 →
       ∃ self' oldest retry_after,
         is_allowed_run rate_limiter "10.0.0.1"
           (Scenario.twenty_times ++ [130%Q])
           = Some (self',
                   replicate 20 (true, None) ++ [(false, Some retry_after)])
         ∧ RateLimiter.py_min first = Some oldest
         ∧ retry_after
           = (Qfloor (time_to_expiry RATE_LIMIT_WINDOW now oldest) + 1)%Z
         ∧ (0 < retry_after)%Z
         ∧ (time_to_expiry RATE_LIMIT_WINDOW now oldest
            < inject_Z retry_after)%Q
         ∧ (inject_Z retry_after
            <= time_to_expiry RATE_LIMIT_WINDOW now oldest + 1)%Q).
Proof.
  apply (sliding_window_admission rate_limiter "10.0.0.1"
           (Scenario.twenty_times ++ [130%Q])).
  - reflexivity.
  - reflexivity.
  - intros r t Hr. vm_compute in Hr. by apply elem_of_nil in Hr.
  - apply (within_window_of_bounds RATE_LIMIT_WINDOW 100 130).
    + vm_compute. reflexivity.
    + vm_compute. reflexivity.
Defined.

(** C7 as stated fails where the time left is a whole number of seconds.
    After twenty admitted checks at the readings 100 to 119, the check
    at 130 is denied with [retry_after = 31], while the oldest stamp
    leaves the window in exactly 30 seconds, which rounded up is 30. *)
Lemma retry_after_is_not_the_time_rounded_up :
  within_window RATE_LIMIT_WINDOW (Scenario.twenty_times ++ [130%Q])
  ∧ (snd <$> is_allowed_run rate_limiter "10.0.0.1"
               (Scenario.twenty_times ++ [130%Q]))
    = Some (replicate 20 (true, None) ++ [(false, Some 31%Z)])
  ∧ RateLimiter.py_min Scenario.twenty_times = Some 100%Q
  ∧ time_to_expiry RATE_LIMIT_WINDOW 130 100 = 30%Q
  ∧ Qceiling (time_to_expiry RATE_LIMIT_WINDOW 130 100) = 30%Z
  ∧ Some 31%Z
    ≠ Some (Qceiling (time_to_expiry RATE_LIMIT_WINDOW 130 100)).
Proof.
  split.
  { apply (within_window_of_bounds RATE_LIMIT_WINDOW 100 130);
      vm_compute; reflexivity. }
  repeat split; try (vm_compute; reflexivity).
  vm_compute. discriminate.
Qed.

(** ** The middleware *)

(** The three listed paths pass without touching the limiter. *)
Lemma exempt_paths_bypass (limiter : RateLimiter.t) (now : Q)
    (request : Request.t) :
  Request.path request ∈ rate_limit_exempt →
  rate_limit_middleware limiter now request = Some (limiter, CallNext).
Proof.
  intros Hin. unfold rate_limit_middleware.
  by rewrite (bool_decide_eq_true_2 _ Hin).
Qed.

(** Every other path is checked against the limiter. *)
Lemma other_paths_are_checked (limiter : RateLimiter.t) (now : Q)
    (request : Request.t) :
  Request.path request ∉ rate_limit_exempt →
  rate_limit_middleware limiter now request =
    match RateLimiter.is_allowed limiter now
            (default "unknown" (Request.client_host request)) with
    | Some (limiter', (true, _)) => Some (limiter', CallNext)
    | Some (limiter', (false, retry_after)) =>
        Some (limiter', TooManyRequests retry_after)
    | None => None
    end.
Proof.
  intros Hout. unfold rate_limit_middleware.
  rewrite (bool_decide_eq_false_2 _ Hout).
  by destruct (RateLimiter.is_allowed _ _ _) as [[? [[] ?]]|].
Qed.

(** C6, at the failing request.  The path [/dialects/italian] is not one
    of the three exempt paths, so the request is checked: as the 21st
    request of a client within one window it is answered with 429. *)
Theorem dialects_route_is_rate_limited :
  (Request.path Scenario.dialects_request ∉ rate_limit_exempt)
  ∧ (snd <$> middleware_run rate_limiter
               (Scenario.twenty_turns ++ [(130%Q, Scenario.dialects_request)]))
    = Some (replicate 20 CallNext ++ [TooManyRequests (Some 31%Z)]).
Proof.
  split; [|vm_compute; reflexivity].
  apply (bool_decide_eq_false_1
           (Request.path Scenario.dialects_request ∈ rate_limit_exempt)).
  vm_compute. reflexivity.
Qed.

(** ** Worked values *)

Example strip_ex : PyStr.strip "  ciao mondo  " = "ciao mondo".
Proof. reflexivity. Qed.

Example len_counts_code_points : PyStr.len "あ" = 1.
Proof. reflexivity. Qed.

Example base_code_ex : base_code "zh-cn" = Ok "zh".
Proof. reflexivity. Qed.

Example unfence_ex : unfence "```json [] ``` and more" = Ok " [] ".
Proof. reflexivity. Qed.

Example quota_error_ex :
  is_quota_error "429 Resource has been exhausted (e.g. check quota)." = true.
Proof. reflexivity. Qed.

Example unknown_language_gets_sofia :
  resolve_persona "klingon" "battle" = Ok (italian, "tuscan", sofia).
Proof. reflexivity. Qed.

(** A base code that agrees with the target is no mismatch: Mexican
    Spanish against the target Spanish. *)
Example regional_variant_is_no_mismatch :
  detect_language_mismatch
    (Scenario.env_with (Ok (DetDict (Some "es-MX"))) Scenario.answers
       Scenario.english_gloss)
    "Hola, buenos dias" "spanish"
  = (false, "", "es-mx").
Proof. reflexivity. Qed.

Example the_session_completes :
  option_map Event.label
    (last (generate_events Scenario.env Scenario.captured))
  = Some "complete".
Proof. vm_compute. reflexivity. Qed.

(** * Further properties *)

(** ** The rate limiter, from any record *)

(** [is_allowed] raises only for a limiter that admits nothing: the
    [ValueError] of [min] needs a limit of zero or less and no live
    stamp. *)
Theorem is_allowed_raises_iff (self : RateLimiter.t) (now : Q)
    (client_ip : string) :
  RateLimiter.is_allowed self now client_ip = None
  ↔ (RateLimiter.max_requests self <= 0)%Z
    ∧ RateLimiter.fresh self now (RateLimiter.stamps_of self client_ip) = [].
Proof.
  unfold RateLimiter.is_allowed.
  set (kept := RateLimiter.fresh self now _).
  destruct (Z.geb_spec (Z.of_nat (length kept)) (RateLimiter.max_requests self))
    as [Hge|Hlt].
  - destruct kept as [|x kept'] eqn:Hk.
    + simpl in *. split; [intros _; split; [lia|done] | done].
    + destruct (py_min_is_Some (x :: kept')) as [m Hm]; [done|].
      rewrite Hm. split; [discriminate | intros [_ ?]; discriminate].
  - split; [discriminate|]. intros [Hmax Hnil]. rewrite Hnil in Hlt.
    simpl in Hlt. lia.
Qed.

(** What a check leaves on record, for the client that asked: the live
    stamps, and the reading itself when the request was admitted. *)
Lemma is_allowed_record (self self' : RateLimiter.t) (now : Q)
    (client_ip : string) (allowed : bool) (retry_after : option Z) :
  RateLimiter.is_allowed self now client_ip
    = Some (self', (allowed, retry_after)) →
  RateLimiter.max_requests self' = RateLimiter.max_requests self
  ∧ RateLimiter.window self' = RateLimiter.window self
  ∧ RateLimiter.stamps_of self' client_ip
    = RateLimiter.fresh self now (RateLimiter.stamps_of self client_ip)
      ++ (if allowed then [now] else [])
  ∧ (if allowed
     then (Z.of_nat (length (RateLimiter.fresh self now
                               (RateLimiter.stamps_of self client_ip)))
           < RateLimiter.max_requests self)%Z
     else (RateLimiter.max_requests self
           <= Z.of_nat (length (RateLimiter.fresh self now
                                  (RateLimiter.stamps_of self client_ip))))%Z).
Proof.
  unfold RateLimiter.is_allowed.
  set (kept := RateLimiter.fresh self now _).
  destruct (Z.geb_spec (Z.of_nat (length kept)) (RateLimiter.max_requests self))
    as [Hge|Hlt].
  - destruct (RateLimiter.py_min kept); [|discriminate].
    intros [= <- <- _]. rewrite stamps_of_insert, app_nil_r.
    repeat split; done.
  - intros [= <- <- _]. rewrite stamps_of_insert. repeat split; done.
Qed.

(** After a check, the record of the client holds at most
    [max_requests] stamps if it did before, and all of them are less
    than a window old. *)
Theorem is_allowed_keeps_record_bounded (self self' : RateLimiter.t)
    (now : Q) (client_ip : string) (answer : bool * option Z) :
  (0 < RateLimiter.window self)%Q →
  (Z.of_nat (length (RateLimiter.stamps_of self client_ip))
   <= RateLimiter.max_requests self)%Z →
  RateLimiter.is_allowed self now client_ip = Some (self', answer) →
  (Z.of_nat (length (RateLimiter.stamps_of self' client_ip))
   <= RateLimiter.max_requests self')%Z
  ∧ ∀ r, r ∈ RateLimiter.stamps_of self' client_ip →
         (now - r < RateLimiter.window self')%Q.
Proof.
  intros Hwindow Hbound Hcall. destruct answer as [allowed retry_after].
  destruct (is_allowed_record _ _ _ _ _ _ Hcall)
    as (Hmax & Hwin & Hstamps & Hcount).
  rewrite Hmax, Hwin, Hstamps. split.
  - rewrite length_app.
    pose proof (length_filter
                  (fun req_time => (now - req_time < RateLimiter.window self)%Q)
                  (RateLimiter.stamps_of self client_ip)) as Hle.
    fold (RateLimiter.fresh self now (RateLimiter.stamps_of self client_ip))
      in Hle.
    destruct allowed; simpl; lia.
  - intros r [Hin|Hin]%elem_of_app.
    + unfold RateLimiter.fresh in Hin.
      apply list_elem_of_filter in Hin as [Hlive _]. exact Hlive.
    + destruct allowed; [|by apply elem_of_nil in Hin].
      apply list_elem_of_singleton in Hin as ->.
      assert (now - now == 0)%Q as -> by ring. exact Hwindow.
Qed.

(** What a denial answers: one more than the whole seconds left to the
    oldest live stamp, which is a positive time. *)
Lemma is_allowed_denial_inv (self self' : RateLimiter.t) (now : Q)
    (client_ip : string) (retry_after : option Z) :
  RateLimiter.is_allowed self now client_ip
    = Some (self', (false, retry_after)) →
  ∃ oldest,
    oldest ∈ RateLimiter.fresh self now (RateLimiter.stamps_of self client_ip)
    ∧ (0 < time_to_expiry (RateLimiter.window self) now oldest)%Q
    ∧ retry_after
      = Some (Qfloor (time_to_expiry (RateLimiter.window self) now oldest)
              + 1)%Z.
Proof.
  unfold RateLimiter.is_allowed.
  set (kept := RateLimiter.fresh self now _).
  destruct (_ >=? _)%Z; [|discriminate].
  destruct (RateLimiter.py_min kept) as [oldest|] eqn:Hmin; [|discriminate].
  intros [= _ <-]. exists oldest.
  apply py_min_elem in Hmin.
  assert (Hpos : (0 < time_to_expiry (RateLimiter.window self) now oldest)%Q).
  { unfold time_to_expiry, kept, RateLimiter.fresh in *.
    apply list_elem_of_filter in Hmin as [Hlive _].
    apply Qlt_minus_iff in Hlive. exact Hlive. }
  split; [exact Hmin|]. split; [exact Hpos|].
  unfold RateLimiter.py_int, time_to_expiry in *.
  assert (Qle_bool 0 (RateLimiter.window self - (now - oldest)) = true) as ->
    by (apply Qle_bool_iff, Qlt_le_weak, Hpos).
  reflexivity.
Qed.

(** Every denial, from any record, carries a [retry_after] of at least
    one second. *)
Lemma denial_asks_for_a_positive_wait (self self' : RateLimiter.t)
    (now : Q) (client_ip : string) (retry_after : option Z) :
  RateLimiter.is_allowed self now client_ip
    = Some (self', (false, retry_after)) →
  ∃ seconds, retry_after = Some seconds ∧ (1 <= seconds)%Z.
Proof.
  intros Hcall.
  destruct (is_allowed_denial_inv _ _ _ _ _ Hcall)
    as (oldest & _ & Hpos & ->).
  eexists. split; [reflexivity|].
  assert (0 <= Qfloor (time_to_expiry (RateLimiter.window self) now oldest))%Z.
  { change 0%Z with (Qfloor 0). apply Qfloor_resp_le, Qlt_le_weak, Hpos. }
  lia.
Qed.

(** Waiting as long as a denial asks is enough: when the record of the
    client is within the limit, the check made [retry_after] seconds
    after a denied one is admitted. *)
Theorem retry_after_is_enough (self self' : RateLimiter.t) (now : Q)
    (client_ip : string) (seconds : Z) :
  (Z.of_nat (length (RateLimiter.stamps_of self client_ip))
   <= RateLimiter.max_requests self)%Z →
  RateLimiter.is_allowed self now client_ip
    = Some (self', (false, Some seconds)) →
  ∃ self'',
    RateLimiter.is_allowed self' (now + inject_Z seconds) client_ip
      = Some (self'', (true, None)).
Proof.
  intros Hbound Hcall.
  destruct (is_allowed_denial_inv _ _ _ _ _ Hcall)
    as (oldest & Hin & Hpos & Hseconds).
  destruct (is_allowed_record _ _ _ _ _ _ Hcall)
    as (Hmax & Hwin & Hstamps & Hfull).
  rewrite app_nil_r in Hstamps.
  set (kept := RateLimiter.fresh self now
                 (RateLimiter.stamps_of self client_ip)) in *.
  set (x := time_to_expiry (RateLimiter.window self) now oldest) in *.
  assert (seconds = (Qfloor x + 1)%Z) as -> by congruence.
  set (now' := (now + inject_Z (Qfloor x + 1))%Q).
  assert (length (RateLimiter.fresh self' now' kept) < length kept) as Hlt.
  { unfold RateLimiter.fresh at 1.
    apply (length_filter_lt _ _ oldest); [exact Hin|].
    rewrite Hwin. apply Qle_not_lt.
    pose proof (Qlt_floor x) as Hceil.
    unfold now', x, time_to_expiry in *. lra. }
  pose proof (length_filter
                (fun req_time => (now - req_time < RateLimiter.window self)%Q)
                (RateLimiter.stamps_of self client_ip)) as Hle.
  fold (RateLimiter.fresh self now (RateLimiter.stamps_of self client_ip))
    in Hle.
  fold kept in Hle.
  destruct (is_allowed_admits self' now' client_ip
              (RateLimiter.fresh self' now' kept))
    as (self'' & Hagain & _).
  - by rewrite Hstamps.
  - rewrite Hmax. lia.
  - by exists self''.
Qed.

(** A check made once every stamp on record has left the window is
    admitted whatever the record held, and starts the record afresh. *)
Theorem quiet_window_resets_the_record (self : RateLimiter.t) (now : Q)
    (client_ip : string) :
  (0 < RateLimiter.max_requests self)%Z →
  (∀ r, r ∈ RateLimiter.stamps_of self client_ip →
        (RateLimiter.window self <= now - r)%Q) →
  ∃ self',
    RateLimiter.is_allowed self now client_ip = Some (self', (true, None))
    ∧ RateLimiter.stamps_of self' client_ip = [now].
Proof.
  intros Hmax Hquiet.
  destruct (is_allowed_admits self now client_ip [])
    as (self' & Hcall & Hstamps & _).
  - by apply fresh_none.
  - simpl. lia.
  - by exists self'.
Qed.

Lemma elems_of_check {A} (P : A → Prop) (check : A → bool) (l : list A) :
  (∀ x, check x = true → P x) →
  forallb check l = true →
  ∀ x, x ∈ l → P x.
Proof.
  intros Hsound Hall x Hin. rewrite forallb_forall in Hall.
  apply Hsound, Hall, list_elem_of_In, Hin.
Qed.

Lemma is_allowed_keeps_record_bounded_witness :
  (Z.of_nat (length (RateLimiter.stamps_of Cases.full_limiter_checked
                       Cases.client))
   <= RateLimiter.max_requests Cases.full_limiter_checked)%Z
  ∧ ∀ r, r ∈ RateLimiter.stamps_of Cases.full_limiter_checked Cases.client →
         (130 - r < RateLimiter.window Cases.full_limiter_checked)%Q.
Proof.
  apply (is_allowed_keeps_record_bounded Cases.full_limiter
           Cases.full_limiter_checked 130%Q Cases.client (false, Some 31%Z)).
  - reflexivity.
  - vm_compute. discriminate.
  - vm_compute. reflexivity.
Defined.

Lemma retry_after_is_enough_witness :
  ∃ self'',
    RateLimiter.is_allowed Cases.full_limiter_checked (130 + inject_Z 31)
      Cases.client
      = Some (self'', (true, None)).
Proof.
  apply (retry_after_is_enough Cases.full_limiter Cases.full_limiter_checked
           130%Q Cases.client 31%Z).
  - vm_compute. discriminate.
  - vm_compute. reflexivity.
Defined.

Lemma quiet_window_resets_the_record_witness :
  ∃ self',
    RateLimiter.is_allowed Cases.full_limiter 200 Cases.client
      = Some (self', (true, None))
    ∧ RateLimiter.stamps_of self' Cases.client = [200%Q].
Proof.
  apply (quiet_window_resets_the_record Cases.full_limiter 200%Q Cases.client).
  - reflexivity.
  - apply (elems_of_check _
             (fun r => Qle_bool (RateLimiter.window Cases.full_limiter)
                         (200 - r))).
    + intros r Hr. by apply Qle_bool_iff.
    + vm_compute. reflexivity.
Defined.

Lemma is_allowed_other_client_witness :
  ∃ self' answer,
    RateLimiter.is_allowed Cases.full_limiter 130 Cases.other_client
      = Some (self', answer)
    ∧ RateLimiter.stamps_of self' Cases.client
      = RateLimiter.stamps_of Cases.full_limiter Cases.client.
Proof.
  eexists _, _. split; [vm_compute; reflexivity|].
  apply (is_allowed_other_client Cases.full_limiter _ 130%Q
           Cases.other_client Cases.client (true, None)).
  - discriminate.
  - vm_compute. reflexivity.
Defined.

(** ** The middleware, from any record *)

(** A 429 answer is only ever given for a path outside the exempt list,
    and it always carries a [retry_after] of at least one second. *)
Theorem too_many_requests_names_a_wait (limiter limiter' : RateLimiter.t)
    (now : Q) (request : Request.t) (retry_after : option Z) :
  rate_limit_middleware limiter now request
    = Some (limiter', TooManyRequests retry_after) →
  (Request.path request ∉ rate_limit_exempt)
  ∧ ∃ seconds, retry_after = Some seconds ∧ (1 <= seconds)%Z.
Proof.
  unfold rate_limit_middleware.
  destruct (bool_decide_reflect (Request.path request ∈ rate_limit_exempt))
    as [Hin|Hout]; [discriminate|].
  destruct (RateLimiter.is_allowed limiter now _)
    as [[self' [allowed ra]]|] eqn:Hcall; [|discriminate].
  destruct allowed; [discriminate|].
  intros [= <- <-]. split; [exact Hout|].
  eapply denial_asks_for_a_positive_wait, Hcall.
Qed.

Lemma too_many_requests_names_a_wait_witness :
  (Request.path Scenario.dialects_request ∉ rate_limit_exempt)
  ∧ ∃ seconds, Some 31%Z = Some seconds ∧ (1 <= seconds)%Z.
Proof.
  apply (too_many_requests_names_a_wait Cases.full_limiter
           Cases.full_limiter_checked 130%Q Scenario.dialects_request
           (Some 31%Z)).
  vm_compute. reflexivity.
Defined.

(** ** The adapters *)

(** Either [transcribe_audio] returns the first transcript of a
    recognition that has results, and no error; or it returns the empty
    transcript with an error message that is not empty. *)
Theorem transcribe_audio_outcomes (env : Env) (audio_content : list Byte.byte)
    (language : string) :
  (∃ lc transcript rest,
     lang_config_of language = Ok lc
     ∧ speech_recognize env audio_content (Lang.code lc)
       = Ok (transcript :: rest)
     ∧ transcribe_audio env audio_content language = (transcript, None))
  ∨ (∃ message,
       transcribe_audio env audio_content language = ("", Some message)
       ∧ PyStr.truthy message = true).
Proof.
  destruct (lang_config_of_total language) as (lc & Hlc & _).
  unfold transcribe_audio. rewrite Hlc. cbn [exc_bind].
  destruct (speech_recognize env audio_content (Lang.code lc))
    as [[|transcript rest]|e] eqn:Hcall; cbn [exc_bind].
  - right. eexists. split; reflexivity.
  - left. exists lc, transcript, rest. done.
  - right. destruct (cls e); eexists; split; reflexivity.
Qed.

(** Either [translate_text] returns the unescaped translation and no
    error, or it returns the empty text with an error message that is
    not empty. *)
Theorem translate_text_outcomes (env : Env) (text : json)
    (source_lang target_lang : string) :
  (∃ lc translated,
     lang_config_of source_lang = Ok lc
     ∧ translate env text (Lang.translate_code lc) target_lang = Ok translated
     ∧ translate_text env text source_lang target_lang
       = (html_unescape env translated, None))
  ∨ (∃ message,
       translate_text env text source_lang target_lang = ("", Some message)
       ∧ PyStr.truthy message = true).
Proof.
  destruct (lang_config_of_total source_lang) as (lc & Hlc & _).
  unfold translate_text. rewrite Hlc. cbn [exc_bind].
  destruct (translate env text (Lang.translate_code lc) target_lang)
    as [translated|e] eqn:Hcall; cbn [exc_bind].
  - left. exists lc, translated. done.
  - right. eexists. split; reflexivity.
Qed.

(** [synthesize_speech] returns audio only for a response whose status
    is neither 401 nor 429 and that [raise_for_status] accepts; in every
    other case it returns empty audio with an error message that is not
    empty.  The two statuses are tested first, whatever the response
    holds. *)
Theorem synthesize_speech_outcomes (env : Env) (text : json)
    (language dialect : string) :
  (∃ lc dc response,
     lang_config_of language = Ok lc
     ∧ dialect_config_of lc dialect = Ok dc
     ∧ elevenlabs_post env (Dialect.voice_id dc) text = Ok response
     ∧ status_code response ≠ 401%Z
     ∧ status_code response ≠ 429%Z
     ∧ status_error response = None
     ∧ synthesize_speech env text language dialect
       = (b64encode env (content response), None))
  ∨ (∃ message,
       synthesize_speech env text language dialect = ("", Some message)
       ∧ PyStr.truthy message = true).
Proof.
  destruct (lang_config_of_total language) as (lc & Hlc & Hd & _).
  destruct (dialect_config_of_total lc dialect Hd) as [dc Hdc].
  unfold synthesize_speech.
  rewrite Hlc. cbn [exc_bind]. rewrite Hdc. cbn [exc_bind].
  destruct (elevenlabs_post env (Dialect.voice_id dc) text)
    as [response|e] eqn:Hcall; cbn [exc_bind].
  - destruct (Z.eqb_spec (status_code response) 401) as [H401|H401].
    { right. eexists. split; reflexivity. }
    destruct (Z.eqb_spec (status_code response) 429) as [H429|H429].
    { right. eexists. split; reflexivity. }
    destruct (status_error response) as [m|] eqn:Hstatus.
    + right. eexists. split; reflexivity.
    + left. exists lc, dc, response. done.
  - right. destruct (cls e); eexists; split; reflexivity.
Qed.

(** The error of an adapter is never an empty string, so [if error:]
    sees every error. *)
Lemma if_error_transcribe (env : Env) (audio_content : list Byte.byte)
    (language t m : string) :
  transcribe_audio env audio_content language = (t, Some m) →
  if_error (Some m) = Some m ∧ t = "".
Proof.
  destruct (lang_config_of_total language) as (lc & Hlc & _).
  unfold transcribe_audio. rewrite Hlc. cbn [exc_bind].
  destruct (speech_recognize env audio_content (Lang.code lc))
    as [[|transcript rest]|e]; cbn [exc_bind];
    [| |destruct (cls e)]; intros [= <- <-]; done.
Qed.

Lemma if_error_synthesize (env : Env) (text : json)
    (language dialect a m : string) :
  synthesize_speech env text language dialect = (a, Some m) →
  if_error (Some m) = Some m ∧ a = "".
Proof.
  destruct (lang_config_of_total language) as (lc & Hlc & Hd & _).
  destruct (dialect_config_of_total lc dialect Hd) as [dc Hdc].
  unfold synthesize_speech.
  rewrite Hlc. cbn [exc_bind]. rewrite Hdc. cbn [exc_bind].
  destruct (elevenlabs_post env (Dialect.voice_id dc) text)
    as [response|e]; cbn [exc_bind].
  - destruct (status_code response =? 401)%Z; [intros [= <- <-]; done|].
    destruct (status_code response =? 429)%Z; [intros [= <- <-]; done|].
    destruct (status_error response); [|discriminate].
    intros [= <- <-]; done.
  - destruct (cls e); intros [= <- <-]; done.
Qed.

(** ** The feedback generator, on every input *)

Lemma try_models_prefix (env : Env) (prompt : Prompt) (models : list string) :
  (try_models env prompt models).2 `prefix_of` models.
Proof.
  induction models as [|m rest IH]; simpl; [done|].
  destruct (generate_content env m prompt).
  - simpl. apply prefix_cons, prefix_nil.
  - destruct (try_models env prompt rest) as [found calls]. simpl in *.
    by apply prefix_cons.
Qed.

(** The models are called in the order of the list, one at a time; the
    loop stops at the first that does not raise, and when it finds none
    it has called every model. *)
Theorem models_are_tried_in_order (env : Env) (prompt : Prompt)
    (models : list string) :
  (∃ failed model response rest,
     models = failed ++ model :: rest
     ∧ Forall (fun m => ∃ e, generate_content env m prompt = Raise e) failed
     ∧ generate_content env model prompt = Ok response
     ∧ try_models env prompt models
       = (Some (model, response), failed ++ [model]))
  ∨ (Forall (fun m => ∃ e, generate_content env m prompt = Raise e) models
     ∧ try_models env prompt models = (None, models)).
Proof.
  induction models as [|m rest IH]; [right; by split|].
  cbn [try_models].
  destruct (generate_content env m prompt) as [response|e] eqn:Hm.
  - left. exists [], m, response, rest. repeat split; done.
  - destruct IH as [(failed & model & response & rest' & -> & Hfailed & Hok & ->)
                   |[Hall ->]].
    + left. exists (m :: failed), model, response, rest'.
      repeat split; try done. constructor; eauto.
    + right. split; [|done]. constructor; eauto.
Qed.

(** [analyze_with_gemini] never lets an exception escape, and it returns
    either a feedback and no error, or no feedback and an error that
    starts with ["AI analysis failed: "]. *)
Lemma analyze_with_gemini_shape (env : Env)
    (transcript language dialect : string) (history : json) :
  (∃ fb,
     (analyze_with_gemini env transcript language dialect history).1
       = Ok (Some fb, None))
  ∨ (∃ m,
       (analyze_with_gemini env transcript language dialect history).1
         = Ok (None, Some ("AI analysis failed: " +:+ m))).
Proof.
  destruct (lang_config_of_total language) as (lc & Hlc & Hd & _).
  destruct (dialect_config_of_total lc dialect Hd) as [dc Hdc].
  unfold analyze_with_gemini.
  rewrite Hlc. cbn [exc_bind]. rewrite Hdc. cbn [exc_bind].
  destruct (detect_language_mismatch env transcript language) as [[w m] d].
  destruct w; [left; eauto|].
  destruct (gemini_feedback env transcript language dialect history)
    as [[fb|e] calls]; cbn [fst]; [left; eauto|].
  destruct (cls e); try (left; eauto; fail);
    destruct (is_quota_exhausted (msg e)); (left; eauto; fail) || (right; eauto).
Qed.

Lemma gemini_feedback_calls_prefix (env : Env)
    (transcript language dialect : string) (history : json) :
  (gemini_feedback env transcript language dialect history).2
    `prefix_of` models_to_try.
Proof.
  unfold gemini_feedback.
  destruct (exc_bind _ _) as [prompt|e]; [|apply prefix_nil].
  pose proof (try_models_prefix env prompt models_to_try) as Hp.
  destruct (try_models env prompt models_to_try) as [found calls].
  exact Hp.
Qed.

(** Whatever the services do, [analyze_with_gemini] returns normally
    with exactly one of a feedback and an error message, the message
    starts with ["AI analysis failed: "], and the models it called are an
    initial part of [models_to_try]. *)
Theorem analyze_with_gemini_outcomes (env : Env)
    (transcript language dialect : string) (history : json) :
  ∃ calls,
    calls `prefix_of` models_to_try
    ∧ ((∃ fb,
          analyze_with_gemini env transcript language dialect history
            = (Ok (Some fb, None), calls))
       ∨ (∃ m,
            analyze_with_gemini env transcript language dialect history
              = (Ok (None, Some ("AI analysis failed: " +:+ m)), calls))).
Proof.
  exists (analyze_with_gemini env transcript language dialect history).2.
  split.
  - unfold analyze_with_gemini.
    destruct (exc_bind _ _) as [[lc dc]|e]; [|apply prefix_nil].
    destruct (detect_language_mismatch env transcript language) as [[w m] d].
    destruct w; [apply prefix_nil|].
    pose proof (gemini_feedback_calls_prefix env transcript language dialect
                  history) as Hp.
    destruct (gemini_feedback env transcript language dialect history)
      as [attempt calls].
    exact Hp.
  - destruct (analyze_with_gemini_shape env transcript language dialect
                history) as [[fb H]|[m H]];
      destruct (analyze_with_gemini env transcript language dialect history)
        as [r calls]; simpl in *; subst r; eauto.
Qed.

(** ** The event stream, on every input *)

(** Takes the generator through its branches, down to literal lists of
    events. *)
Ltac walk_generator env c :=
  open_generator;
  destruct (length (audio_content c) <? 1000)%nat; [cbn [app]|];
  [|destruct (transcribe_audio env (audio_content c) (language c))
      as [t e];
    destruct (if_error e); [cbn [app]|];
    [|destruct (negb (PyStr.truthy t)); [cbn [app]|];
      [|let H := fresh "Hshape" in
        destruct (analyze_with_gemini_shape env t (language c) (dialect c)
                    (conversation_history c)) as [[fb H]|[m H]];
        rewrite H; cbn [if_error PyStr.truthy String.append app];
        [destruct (translate_text env (response fb) (language c) "en")
           as [tr te];
         destruct (synthesize_speech env (response fb) (language c)
                     (dialect c)) as [a ae];
         cbn [app]|]]]].

(** The body of the generator never raises: the [except Exception]
    clause of [generate_events], with its generic message, is never
    reached. *)
Theorem generator_body_never_raises (env : Env) (c : Captured) :
  ∃ events,
    generate_events_body env c = (events, Ok tt)
    ∧ generate_events env c = events.
Proof.
  walk_generator env c; eexists; split; reflexivity.
Qed.

(** A stream has one of four shapes: it stops with an [error] after
    [progress(receiving)], after [progress(transcribing)] or after
    [progress(analyzing)], or it is the complete run. *)
Theorem stream_shapes (env : Env) (c : Captured) :
  map Event.label (generate_events env c)
    = ["progress(receiving)"; "error"]
  ∨ map Event.label (generate_events env c)
    = ["progress(receiving)"; "progress(transcribing)"; "error"]
  ∨ map Event.label (generate_events env c)
    = ["progress(receiving)"; "progress(transcribing)"; "transcript";
       "progress(analyzing)"; "error"]
  ∨ map Event.label (generate_events env c) = complete_labels.
Proof.
  walk_generator env c.
  - left. reflexivity.
  - right. left. reflexivity.
  - right. left. reflexivity.
  - right. right. right. reflexivity.
  - right. right. left. reflexivity.
Qed.

(** The percentages of the [progress] events of a stream are an initial
    part of 10, 25, 45, 65, 85, 100: progress only rises, and reaches
    100 only in a complete run. *)
Theorem progress_only_rises (env : Env) (c : Captured) :
  omap progress_of (generate_events env c) `prefix_of` progress_scale.
Proof.
  walk_generator env c; cbn [omap list_omap progress_of];
    repeat apply prefix_cons; apply prefix_nil.
Qed.

(** Splits the membership of an event in a literal list into its
    cases, and drops those that name another kind of event. *)
Ltac elem_cases H :=
  repeat (apply elem_of_cons in H as [H|H]; [try discriminate H|]);
  try (apply elem_of_nil in H; contradiction).

(** The [complete] event repeats what the stream has shown: its
    transcript is the one of the [transcript] event, its feedback the one
    of the [analysis] event, its two responses those of the
    [translation] event; and it names the tutor, language and dialect of
    the request as [converse] resolved them. *)
Theorem complete_agrees_with_the_stream (env : Env) (c : Captured)
    (data : Complete.t) :
  Event.complete data ∈ generate_events env c →
  Event.transcript (Complete.transcript data) ∈ generate_events env c
  ∧ Event.analysis (Complete.reaction data) (Complete.correction data)
      (Complete.encouragement data) (Complete.cultural_note data)
    ∈ generate_events env c
  ∧ Event.translation (Complete.response_native data)
      (Complete.response_english data)
    ∈ generate_events env c
  ∧ Complete.tutor_name data = Dialect.name (dialect_config c)
  ∧ Complete.tutor_region data = Dialect.region (dialect_config c)
  ∧ Complete.language data = language c
  ∧ Complete.dialect data = dialect c.
Proof.
  walk_generator env c; intros Hin; elem_cases Hin.
  injection Hin as ->. cbn.
  repeat split; try reflexivity.
  - do 2 apply list_elem_of_further. apply list_elem_of_here.
  - do 4 apply list_elem_of_further. apply list_elem_of_here.
  - do 6 apply list_elem_of_further. apply list_elem_of_here.
Qed.

Lemma complete_agrees_with_the_stream_witness :
  Event.transcript "Ciao, come stai?"
    ∈ generate_events Scenario.env Scenario.captured
  ∧ Event.analysis (JStr "Bene!") (JStr "Perfect!")
      (JStr "You're getting it!") (JStr "")
    ∈ generate_events Scenario.env Scenario.captured
  ∧ Event.translation (JStr "Sto bene, grazie! E tu?")
      "I'm fine, thanks! And you?"
    ∈ generate_events Scenario.env Scenario.captured
  ∧ "Marco" = Dialect.name (dialect_config Scenario.captured)
  ∧ "Rome" = Dialect.region (dialect_config Scenario.captured)
  ∧ "italian" = language Scenario.captured
  ∧ "roman" = dialect Scenario.captured.
Proof.
  apply (complete_agrees_with_the_stream Scenario.env Scenario.captured
           {| Complete.transcript := "Ciao, come stai?";
              Complete.reaction := JStr "Bene!";
              Complete.correction := JStr "Perfect!";
              Complete.encouragement := JStr "You're getting it!";
              Complete.cultural_note := JStr "";
              Complete.response_native := JStr "Sto bene, grazie! E tu?";
              Complete.response_english := "I'm fine, thanks! And you?";
              Complete.audio_base64 := "SUQz";
              Complete.tutor_name := "Marco";
              Complete.tutor_region := "Rome";
              Complete.language := "italian";
              Complete.dialect := "roman" |}).
  vm_compute. do 9 apply list_elem_of_further. apply list_elem_of_here.
Defined.

(** A failed transcription stops the stream after
    [progress(transcribing)], with the adapter's message as the [error]
    event; a transcription that succeeds with an empty text stops it
    there too, with a message of the generator. *)
Theorem transcription_failure_aborts (env : Env) (c : Captured)
    (t : string) (error : option string) :
  1000 ≤ length (audio_content c) →
  transcribe_audio env (audio_content c) (language c) = (t, error) →
  error ≠ None ∨ t = "" →
  generate_events env c =
    [ Event.progress "receiving"
        ("🎤 " +:+ Dialect.name (dialect_config c) +:+ " is listening...") 10;
      Event.progress "transcribing"
        ("📝 Understanding your " +:+ Lang.name (lang_config c) +:+ "...") 25;
      Event.error
        (default "Couldn't hear you clearly. Please try again!" error) ].
Proof.
  intros Hlen Ht Hfail. open_generator.
  assert ((length (audio_content c) <? 1000)%nat = false) as ->
    by (apply Nat.ltb_ge; lia).
  rewrite Ht. destruct error as [m|].
  - destruct (if_error_transcribe _ _ _ _ _ Ht) as [-> _]. reflexivity.
  - destruct Hfail as [?| ->]; [done|]. reflexivity.
Qed.

Lemma transcription_failure_aborts_witness :
  generate_events Cases.env_speech_busy Scenario.captured =
    [ Event.progress "receiving"
        ("🎤 " +:+ Dialect.name (dialect_config Scenario.captured)
         +:+ " is listening...") 10;
      Event.progress "transcribing"
        ("📝 Understanding your "
         +:+ Lang.name (lang_config Scenario.captured) +:+ "...") 25;
      Event.error
        (default "Couldn't hear you clearly. Please try again!"
           (Some "Service temporarily busy. Please wait a moment.")) ].
Proof.
  apply (transcription_failure_aborts Cases.env_speech_busy Scenario.captured
           "" (Some "Service temporarily busy. Please wait a moment.")).
  - vm_compute. lia.
  - vm_compute. reflexivity.
  - left. discriminate.
Defined.

(** A failed synthesis does not stop the stream: it ends with a
    [complete] event whose audio is empty, and it holds no [error]
    event. *)
Theorem synthesis_failure_is_silent (env : Env) (c : Captured)
    (t a m : string) (fb : Feedback) :
  1000 ≤ length (audio_content c) →
  transcribe_audio env (audio_content c) (language c) = (t, None) →
  t ≠ "" →
  (analyze_with_gemini env t (language c) (dialect c)
     (conversation_history c)).1 = Ok (Some fb, None) →
  synthesize_speech env (response fb) (language c) (dialect c)
    = (a, Some m) →
  ∃ before data,
    generate_events env c = before ++ [Event.complete data]
    ∧ Complete.audio_base64 data = ""
    ∧ Forall (fun ev => Event.is_error ev = false) (generate_events env c).
Proof.
  intros Hlen Ht Hne Ha Hs.
  destruct (generate_events_complete env c t None None fb)
    as (en & au & Hen & Hau & Hev); try done.
  rewrite Hs in Hau. cbn [snd fst] in Hau.
  destruct (if_error_synthesize _ _ _ _ _ _ Hs) as [Hsome _].
  rewrite Hsome in Hau. subst au.
  rewrite Hev.
  eexists [_; _; _; _; _; _; _; _; _], _.
  split; [reflexivity|]. split; [reflexivity|].
  repeat constructor.
Qed.

Lemma synthesis_failure_is_silent_witness :
  ∃ before data,
    generate_events Cases.env_voice_unauthorized Scenario.captured
      = before ++ [Event.complete data]
    ∧ Complete.audio_base64 data = ""
    ∧ Forall (fun ev => Event.is_error ev = false)
        (generate_events Cases.env_voice_unauthorized Scenario.captured).
Proof.
  apply (synthesis_failure_is_silent Cases.env_voice_unauthorized
           Scenario.captured "Ciao, come stai?" ""
           "ElevenLabs API key invalid" Scenario.feedback).
  - vm_compute. lia.
  - vm_compute. reflexivity.
  - discriminate.
  - vm_compute. reflexivity.
  - vm_compute. reflexivity.
Defined.

(** The persona that [converse] resolves is the one every adapter finds
    again from the language of the request and the dialect in force: the
    tutor named in the events is the one whose greeting and voice are
    used. *)
Theorem adapters_find_the_resolved_persona (language dialect : string) :
  ∃ lc dialect' dc,
    resolve_persona language dialect = Ok (lc, dialect', dc)
    ∧ lang_config_of language = Ok lc
    ∧ dialect_config_of lc dialect' = Ok dc
    ∧ get_tutor_prompt language dialect' = Ok (lc, dc).
Proof.
  destruct (lang_config_of_total language) as (lc & Hlc & Hne & _).
  destruct (resolve_persona_with language dialect lc Hlc Hne)
    as (d & dc & Hres & Hvalid & _).
  exists lc, d, dc. split; [exact Hres|]. split; [exact Hlc|].
  assert (Hdc : dialect_config_of lc d = Ok dc).
  { unfold dialect_config_of, list_index, PyDict.get.
    destruct (Lang.dialects lc) as [|[k v] rest]; [done|].
    cbn [PyDict.values map lookup list_lookup exc_bind].
    by rewrite Hvalid. }
  split; [exact Hdc|].
  unfold get_tutor_prompt. rewrite Hlc. cbn [exc_bind].
  by rewrite Hdc.
Qed.

(** ** Searching and cutting strings *)

Lemma append_cons (c : ascii) (s t : string) :
  String c s +:+ t = String c (s +:+ t).
Proof. reflexivity. Qed.

Lemma append_nil_r (s : string) : s +:+ "" = s.
Proof.
  induction s as [|c s IH]; [reflexivity|]. by rewrite append_cons, IH.
Qed.

Lemma startswith_app (p s : string) : PyStr.startswith p (p +:+ s) = true.
Proof.
  induction p as [|c p IH]; [reflexivity|].
  rewrite append_cons. cbn [PyStr.startswith].
  by rewrite Ascii.eqb_refl, IH.
Qed.

Lemma drop_chars_app (p s : string) :
  PyStr.drop_chars (String.length p) (p +:+ s) = s.
Proof.
  induction p as [|c p IH]; [by destruct s|].
  rewrite append_cons. exact IH.
Qed.

(** A separator at the front is found at once. *)
Lemma find_here (sep s : string) :
  PyStr.find sep (sep +:+ s) = Some ("", s).
Proof.
  destruct sep as [|c sep].
  - change ("" +:+ s) with s. by destruct s.
  - rewrite append_cons. cbn [PyStr.find].
    rewrite <- append_cons, startswith_app, drop_chars_app. reflexivity.
Qed.

Lemma lacks_cons (c x : ascii) (s : string) :
  lacks c (String x s) → x ≠ c ∧ lacks c s.
Proof.
  unfold lacks, PyStr.contains. simpl.
  destruct (Ascii.eqb_spec c x) as [->|Hne]; simpl; [discriminate|].
  destruct (PyStr.find (String c "") s) as [[a b]|]; [discriminate|].
  intros _. split; [congruence|reflexivity].
Qed.

(** A search passes over a text that lacks the first character of the
    separator. *)
Lemma find_skip (c : ascii) (sep a s : string) :
  lacks c a →
  PyStr.find (String c sep) (a +:+ s) =
    match PyStr.find (String c sep) s with
    | Some (x, y) => Some (a +:+ x, y)
    | None => None
    end.
Proof.
  induction a as [|x a IH]; intros Hlacks.
  - change ("" +:+ s) with s.
    by destruct (PyStr.find (String c sep) s) as [[? ?]|].
  - apply lacks_cons in Hlacks as [Hne Hlacks].
    rewrite append_cons. cbn [PyStr.find PyStr.startswith].
    assert (Ascii.eqb c x = false) as -> by (apply Ascii.eqb_neq; congruence).
    cbn [andb]. rewrite (IH Hlacks).
    by destruct (PyStr.find (String c sep) s) as [[? ?]|].
Qed.

Lemma find_lacking (c : ascii) (sep a : string) :
  lacks c a → PyStr.find (String c sep) a = None.
Proof.
  intros Hlacks. rewrite <- (append_nil_r a), (find_skip c sep a "" Hlacks).
  reflexivity.
Qed.


Lemma startswith_rebuilds (p s : string) :
  PyStr.startswith p s = true →
  s = p +:+ PyStr.drop_chars (String.length p) s.
Proof.
  revert s. induction p as [|c p IH]; intros s.
  - intros _. by destruct s.
  - destruct s as [|x s]; [discriminate|]. cbn [PyStr.startswith].
    intros [Hc Hp]%andb_true_iff. apply Ascii.eqb_eq in Hc as ->.
    rewrite append_cons. simpl. f_equal. by apply IH.
Qed.

(** What a search returns rebuilds the text around the separator. *)
Lemma find_rebuilds (sep s a b : string) :
  PyStr.find sep s = Some (a, b) → s = a +:+ sep +:+ b.
Proof.
  revert a b. induction s as [|x s IH]; intros a b; cbn [PyStr.find].
  - destruct (PyStr.startswith sep "") eqn:Hstart; [|discriminate].
    intros [= <- <-]. by apply startswith_rebuilds.
  - destruct (PyStr.startswith sep (String x s)) eqn:Hstart.
    + intros [= <- <-]. by apply startswith_rebuilds.
    + destruct (PyStr.find sep s) as [[a' b']|]; [|discriminate].
      intros [= <- <-]. rewrite append_cons. f_equal. by apply IH.
Qed.

(** The first two pieces of a split. *)
Lemma split_first (sep s : string) :
  PyStr.split sep s !! 0 =
    Some (match PyStr.find sep s with Some (a, _) => a | None => s end).
Proof.
  unfold PyStr.split. destruct s as [|x s].
  - cbn [String.length PyStr.split_fuel].
    destruct (PyStr.find sep "") as [[a b]|] eqn:E; [|reflexivity].
    apply find_rebuilds in E. destruct a; [reflexivity|discriminate E].
  - cbn [String.length PyStr.split_fuel].
    by destruct (PyStr.find sep (String x s)) as [[a b]|].
Qed.


(** ** The language detector, on every input *)

Lemma base_code_total (s : string) : ∃ b, base_code s = Ok b.
Proof.
  unfold base_code, list_index. rewrite split_first. eauto.
Qed.

(** [base_code] keeps a code without hyphen as it is, and keeps of a
    code with a hyphen what stands before the first one: a regional
    variant has the base code of its language. *)
Theorem base_code_drops_the_region (language region : string) :
  lacks "-" language →
  base_code language = Ok language
  ∧ base_code (language +:+ "-" +:+ region) = Ok language.
Proof.
  intros Hlacks. unfold base_code, list_index. rewrite !split_first.
  rewrite (find_lacking "-" "" language Hlacks).
  rewrite (find_skip "-" "" language _ Hlacks), (find_here "-" region).
  by rewrite append_nil_r.
Qed.

Lemma base_code_drops_the_region_witness :
  base_code "zh" = Ok "zh" ∧ base_code ("zh" +:+ "-" +:+ "tw") = Ok "zh".
Proof.
  apply (base_code_drops_the_region "zh" "tw"). reflexivity.
Defined.

(** A mismatch is reported exactly when the transcript has at least two
    characters once stripped, the detector answers with a code that is
    neither empty nor ["und"], and the base of that code is not the base
    of the target's code.  In every other case, a detector that raises
    included, the transcript is let through. *)
Theorem mismatch_is_reported_iff (env : Env)
    (transcript target_language : string) :
  (detect_language_mismatch env transcript target_language).1.1 = true
  ↔ 2 ≤ PyStr.len (PyStr.strip transcript)
    ∧ ∃ detection lc,
        detect_language env transcript = Ok detection
        ∧ lang_config_of target_language = Ok lc
        ∧ detected_lang_of detection ≠ ""
        ∧ detected_lang_of detection ≠ "und"
        ∧ base_code (detected_lang_of detection)
          ≠ base_code (PyStr.lower (Lang.translate_code lc)).
Proof.
  destruct (lang_config_of_total target_language) as (lc & Hlc & _).
  split.
  - unfold detect_language_mismatch.
    destruct (negb (PyStr.truthy transcript)
              || (PyStr.len (PyStr.strip transcript) <? 2)%nat) eqn:Hguard;
      [discriminate|].
    apply orb_false_iff in Hguard as [_ Hlen%Nat.ltb_ge].
    destruct (detect_language env transcript) as [detection|e] eqn:Hdet;
      cbn [exc_bind]; [|discriminate].
    rewrite Hlc. cbn [exc_bind].
    destruct (negb (PyStr.truthy (detected_lang_of detection))
              || String.eqb (detected_lang_of detection) "und") eqn:Hknown;
      [discriminate|].
    apply orb_false_iff in Hknown as [Hne Hund%String.eqb_neq].
    destruct (base_code_total (detected_lang_of detection)) as [db Hdb].
    destruct (base_code_total (PyStr.lower (Lang.translate_code lc)))
      as [tb Htb].
    rewrite Hdb, Htb. cbn [exc_bind].
    destruct (String.eqb_spec db tb) as [->|Hdiff]; [discriminate|].
    intros _. split; [lia|]. exists detection, lc.
    repeat split; try done.
    + intros Hempty. rewrite Hempty in Hne. discriminate.
    + congruence.
  - intros (Hlen & detection & lc' & Hdet & Hlc' & Hne & Hund & Hdiff).
    rewrite Hlc in Hlc'. injection Hlc' as <-.
    destruct (base_code_total (detected_lang_of detection)) as [db Hdb].
    destruct (base_code_total (PyStr.lower (Lang.translate_code lc)))
      as [tb Htb].
    rewrite (detect_language_mismatch_found env transcript target_language
               detection lc (detected_lang_of detection) db tb); try done.
    congruence.
Qed.

(** ** Reading the model's reply *)





(** Only the last two turns of the history reach the prompt: what comes
    before them is not read, so it can neither change the context nor
    make its construction fail. *)
Theorem only_the_last_two_turns_count (older : list json) (a b : json) :
  history_context (JArr (older ++ [a; b])) = history_context (JArr [a; b]).
Proof.
  unfold history_context.
  assert (Json.truthy (JArr (older ++ [a; b])) = true) as ->
    by (by destruct older).
  cbn [Json.truthy history_tail exc_bind]. f_equal.
  unfold last_two. rewrite length_app. cbn [length].
  replace (length older + 2 - 2) with (length older) by lia.
  by rewrite drop_app_length.
Qed.

(** Opens [analyze_with_gemini] up to the loop over the models, for a
    transcript in the right language and a prompt that can be built. *)
Ltac open_feedback Hlc Hdc Hmatch Hturns :=
  unfold analyze_with_gemini, gemini_feedback, get_tutor_prompt;
  rewrite Hlc; cbn [exc_bind]; rewrite Hdc; cbn [exc_bind];
  match goal with
  | |- context [detect_language_mismatch ?env ?t ?l] =>
      destruct (detect_language_mismatch env t l) as [[w m] d];
      simpl in Hmatch; subst w
  end;
  rewrite Hturns; cbn [exc_bind fst snd].

(** A reply that [json.loads] rejects does not fail the turn: the result
    is the canned ["I heard you!"] feedback with the tutor's greeting, and
    no error. *)
Theorem undecodable_reply_falls_back (env : Env)
    (transcript language dialect : string) (history : json)
    (lc : Lang.t) (dc : Dialect.t) (turns : list (json * json))
    (model text inner : string) (calls : list string) :
  (detect_language_mismatch env transcript language).1.1 = false →
  lang_config_of language = Ok lc →
  dialect_config_of lc dialect = Ok dc →
  history_context history = Ok turns →
  try_models env
    {| tutor := dc; target_language := Lang.name lc;
       recent_turns := turns; learner_said := transcript |}
    models_to_try = (Some (model, Ok text), calls) →
  unfence (PyStr.strip text) = Ok inner →
  json_loads env (PyStr.strip inner) = None →
  analyze_with_gemini env transcript language dialect history
    = (Ok (Some {| reaction := JStr "I heard you!";
                   correction := JStr "Let me help you with that.";
                   response := JStr (Dialect.greeting dc);
                   cultural_note := JStr "";
                   encouragement := JStr "Keep trying!" |},
           None),
       calls).
Proof.
  intros Hmatch Hlc Hdc Hturns Hfound Hinner Hloads.
  open_feedback Hlc Hdc Hmatch Hturns.
  rewrite Hfound. cbn [exc_bind]. rewrite Hinner. cbn [exc_bind].
  rewrite Hloads. reflexivity.
Qed.

Lemma undecodable_reply_falls_back_witness :
  analyze_with_gemini Cases.env_prose "Ciao, come stai?" "italian" "roman"
    (JArr [])
    = (Ok (Some {| reaction := JStr "I heard you!";
                   correction := JStr "Let me help you with that.";
                   response := JStr (Dialect.greeting marco);
                   cultural_note := JStr "";
                   encouragement := JStr "Keep trying!" |},
           None),
       ["gemini-2.0-flash-lite"]).
Proof.
  apply (undecodable_reply_falls_back Cases.env_prose "Ciao, come stai?"
           "italian" "roman" (JArr []) italian marco []
           "gemini-2.0-flash-lite" "Sorry, I can only answer in Italian."
           "Sorry, I can only answer in Italian."
           ["gemini-2.0-flash-lite"]);
    vm_compute; reflexivity.
Defined.

(** A reply that decodes to a JSON object always gives a feedback, each
    of the five fields being the entry of the object or the empty string
    when the object lacks it; a reply that decodes to anything else is a
    hard error. *)
Theorem decoded_reply_outcomes (env : Env)
    (transcript language dialect : string) (history : json)
    (lc : Lang.t) (dc : Dialect.t) (turns : list (json * json))
    (model text inner : string) (calls : list string) (result : json) :
  (detect_language_mismatch env transcript language).1.1 = false →
  lang_config_of language = Ok lc →
  dialect_config_of lc dialect = Ok dc →
  history_context history = Ok turns →
  try_models env
    {| tutor := dc; target_language := Lang.name lc;
       recent_turns := turns; learner_said := transcript |}
    models_to_try = (Some (model, Ok text), calls) →
  unfence (PyStr.strip text) = Ok inner →
  json_loads env (PyStr.strip inner) = Some result →
  analyze_with_gemini env transcript language dialect history
    = (match result with
       | JObj fields =>
           Ok (Some {| reaction := PyDict.get "reaction" (JStr "") fields;
                       correction := PyDict.get "correction" (JStr "") fields;
                       response := PyDict.get "response" (JStr "") fields;
                       cultural_note :=
                         PyDict.get "cultural_note" (JStr "") fields;
                       encouragement :=
                         PyDict.get "encouragement" (JStr "") fields |},
               None)
       | _ =>
           Ok (None,
               Some ("AI analysis failed: '" +:+ Json.type_name result
                     +:+ "' object has no attribute 'get'"))
       end,
       calls).
Proof.
  intros Hmatch Hlc Hdc Hturns Hfound Hinner Hloads.
  open_feedback Hlc Hdc Hmatch Hturns.
  rewrite Hfound. cbn [exc_bind]. rewrite Hinner. cbn [exc_bind].
  rewrite Hloads. by destruct result.
Qed.

Lemma decoded_reply_outcomes_witness :
  analyze_with_gemini Cases.env_empty_object "Ciao, come stai?" "italian"
    "roman" (JArr [])
    = (Ok (Some {| reaction := JStr "";
                   correction := JStr "";
                   response := JStr "";
                   cultural_note := JStr "";
                   encouragement := JStr "" |},
           None),
       ["gemini-2.0-flash-lite"]).
Proof.
  apply (decoded_reply_outcomes Cases.env_empty_object "Ciao, come stai?"
           "italian" "roman" (JArr []) italian marco []
           "gemini-2.0-flash-lite" "Here you are: ```json {} ``` Ciao!"
           " {} " ["gemini-2.0-flash-lite"] (JObj []));
    vm_compute; reflexivity.
Defined.

(** A history that decodes to something other than a list, and is not
    falsy, fails the turn with a hard error before any model is
    called. *)
Theorem history_that_is_no_list_fails (env : Env)
    (transcript language dialect : string) (history : json) :
  (detect_language_mismatch env transcript language).1.1 = false →
  Json.truthy history = true →
  (∀ items, history ≠ JArr items) →
  ∃ m,
    analyze_with_gemini env transcript language dialect history
      = (Ok (None, Some ("AI analysis failed: " +:+ m)), []).
Proof.
  intros Hmatch Htruthy Hlist.
  destruct (lang_config_of_total language) as (lc & Hlc & Hd & _).
  destruct (dialect_config_of_total lc dialect Hd) as [dc Hdc].
  unfold analyze_with_gemini, gemini_feedback, get_tutor_prompt.
  rewrite Hlc. cbn [exc_bind]. rewrite Hdc. cbn [exc_bind].
  destruct (detect_language_mismatch env transcript language) as [[w m] d].
  simpl in Hmatch. subst w.
  unfold history_context. rewrite Htruthy.
  destruct history as [|b|n|q|s|items|fields];
    try (eexists; vm_compute; reflexivity).
  by destruct (Hlist items).
Qed.

Lemma history_that_is_no_list_fails_witness :
  ∃ m,
    analyze_with_gemini Scenario.env "Ciao, come stai?" "italian" "roman"
      (JInt 5)
      = (Ok (None, Some ("AI analysis failed: " +:+ m)), []).
Proof.
  apply (history_that_is_no_list_fails Scenario.env "Ciao, come stai?"
           "italian" "roman" (JInt 5)).
  - vm_compute. reflexivity.
  - reflexivity.
  - discriminate.
Defined.

(** ** The catalog endpoints *)

Lemma lookup_map_values {V W} (g : string * V → W) (k : string)
    (d : list (string * V)) :
  PyDict.lookup k (map (fun e : string * V => (e.1, g e)) d)
    = (fun v => g (k, v)) <$> PyDict.lookup k d.
Proof.
  induction d as [|[k' v] d IH]; [reflexivity|]. simpl.
  destruct (String.eqb k k') eqn:Hk; [|exact IH].
  apply String.eqb_eq in Hk. by subst k'.
Qed.

Lemma keys_map_values {V W} (g : string * V → W) (d : list (string * V)) :
  PyDict.keys (map (fun e : string * V => (e.1, g e)) d) = PyDict.keys d.
Proof.
  unfold PyDict.keys. rewrite map_map. by apply map_ext.
Qed.

(** [GET /dialects/{language}] answers exactly for the keys that
    [GET /languages] lists, with the same name, flag and dialects, in
    the same order; any other key gets the 404 that names it. *)
Theorem languages_and_dialects_agree (language : string) :
  (language ∉ PyDict.keys get_languages
   ↔ get_dialects language
     = Http404 ("Language '" +:+ language +:+ "' not supported"))
  ∧ ∀ info,
      PyDict.lookup language get_languages = Some info →
      ∃ body,
        get_dialects language = Http200 body
        ∧ DialectList.language body = LanguageInfo.name info
        ∧ DialectList.flag body = LanguageInfo.flag info
        ∧ map (fun d : string * (string * string * string) =>
                 (d.1, (d.2.1.1, d.2.1.2)))
            (DialectList.dialects body)
          = LanguageInfo.dialects info.
Proof.
  unfold get_languages, get_dialects. split.
  - rewrite keys_map_values, <- lookup_None_keys.
    destruct (PyDict.lookup language SUPPORTED_LANGUAGES);
      split; done.
  - intros info. rewrite lookup_map_values.
    destruct (PyDict.lookup language SUPPORTED_LANGUAGES) as [lc|];
      [|discriminate].
    intros [= <-]. eexists. split; [reflexivity|].
    cbn. repeat split. rewrite map_map. by apply map_ext.
Qed.

Lemma catalog_dialect_keys_nonempty (lc : Lang.t) (key : string) :
  lc ∈ PyDict.values SUPPORTED_LANGUAGES →
  key ∈ PyDict.keys (Lang.dialects lc) →
  key ≠ "".
Proof.
  intros Hlc Hkey.
  assert (forallb (fun l => forallb (fun k => negb (String.eqb k ""))
                              (PyDict.keys (Lang.dialects l)))
            (PyDict.values SUPPORTED_LANGUAGES) = true) as Hall
    by (vm_compute; reflexivity).
  rewrite forallb_forall in Hall.
  apply list_elem_of_In, Hall in Hlc. rewrite forallb_forall in Hlc.
  apply list_elem_of_In, Hlc, negb_true_iff, String.eqb_neq in Hkey.
  exact Hkey.
Qed.

(** Every language and dialect that [GET /languages] lists is accepted
    by [converse] as it is: the pair resolves to itself, and to the
    tutor listed under it. *)
Theorem listed_pairs_resolve_to_themselves (language dialect : string)
    (info : LanguageInfo.t) (name region : string) :
  PyDict.lookup language get_languages = Some info →
  PyDict.lookup dialect (LanguageInfo.dialects info) = Some (name, region) →
  ∃ lc dc,
    resolve_persona language dialect = Ok (lc, dialect, dc)
    ∧ Dialect.name dc = name
    ∧ Dialect.region dc = region.
Proof.
  unfold get_languages. rewrite lookup_map_values.
  destruct (PyDict.lookup language SUPPORTED_LANGUAGES) as [lc|] eqn:Hlang;
    [|discriminate].
  intros [= <-]. cbn [LanguageInfo.dialects].
  rewrite lookup_map_values.
  destruct (PyDict.lookup dialect (Lang.dialects lc)) as [dc|] eqn:Hdialect;
    [|discriminate].
  intros [= <- <-].
  destruct (lang_config_of_total language) as (lc' & Hlc & Hne & _ & Hown).
  rewrite (Hown lc Hlang) in *.
  destruct (resolve_persona_with language dialect lc Hlc Hne)
    as (d & dc' & Hres & Hvalid & _ & Hkept).
  assert (Hin : dialect ∈ PyDict.keys (Lang.dialects lc)).
  { apply dec_stable. intros Hout. apply lookup_None_keys in Hout.
    congruence. }
  assert (Hd : d = dialect).
  { apply Hkept; [|exact Hin].
    eapply catalog_dialect_keys_nonempty; [|exact Hin].
    eapply lookup_elem_values, Hlang. }
  subst d. rewrite Hdialect in Hvalid. injection Hvalid as <-.
  by exists lc, dc.
Qed.

Lemma listed_pairs_resolve_to_themselves_witness :
  ∃ lc dc,
    resolve_persona "japanese" "osaka" = Ok (lc, "osaka", dc)
    ∧ Dialect.name dc = "Kenji"
    ∧ Dialect.region dc = "Osaka".
Proof.
  apply (listed_pairs_resolve_to_themselves "japanese" "osaka"
           {| LanguageInfo.name := Lang.name japanese;
              LanguageInfo.flag := Lang.flag japanese;
              LanguageInfo.dialects :=
                map (fun d : string * Dialect.t =>
                       (d.1, (Dialect.name d.2, Dialect.region d.2)))
                  (Lang.dialects japanese) |}
           "Kenji" "Osaka");
    reflexivity.
Defined.

(** [GET /greeting] always answers, with the greeting of the resolved
    persona.  A translator that fails leaves the English greeting empty,
    and the audio is empty unless it was asked for. *)
Theorem get_greeting_always_answers (env : Env) (language dialect : string)
    (include_audio : bool) :
  ∃ lc dialect' dc greeting,
    resolve_persona language dialect = Ok (lc, dialect', dc)
    ∧ get_greeting env language dialect include_audio = Ok greeting
    ∧ Greeting.tutor_name greeting = Dialect.name dc
    ∧ Greeting.greeting_native greeting = Dialect.greeting dc
    ∧ (include_audio = false → Greeting.audio_base64 greeting = "")
    ∧ (∀ e,
         translate env (JStr (Dialect.greeting dc)) (Lang.translate_code lc)
           "en" = Raise e →
         Greeting.greeting_english greeting = "")
    ∧ (∀ translated,
         translate env (JStr (Dialect.greeting dc)) (Lang.translate_code lc)
           "en" = Ok translated →
         Greeting.greeting_english greeting = html_unescape env translated).
Proof.
  destruct (lang_config_of_total language) as (lc & Hlc & Hne & _).
  destruct (resolve_persona_with language dialect lc Hlc Hne)
    as (d & dc & Hres & _).
  unfold get_greeting. rewrite Hres. cbn [exc_bind].
  eexists lc, d, dc, _. split; [reflexivity|]. split; [reflexivity|].
  cbn. repeat split.
  - by intros ->.
  - intros e He. unfold translate_text. rewrite Hlc. cbn [exc_bind].
    by rewrite He.
  - intros translated Hok. unfold translate_text. rewrite Hlc.
    cbn [exc_bind]. by rewrite Hok.
Qed.
